(** * SHIFT-RAG: the cache / retrieval / filtering pipeline

    A shallow embedding of [app/services/MetricEvaluator.py],
    [app/services/Retriever.py], [app/services/Reader.py] and
    [app/services/QAService.py], and the properties of the pipeline that the
    design document states.

    Conventions.
    - A Python [str] is a list of Unicode code points, [list N].
    - A Python [float] score is a real number: rounding, infinities and NaN
      are not modelled; where a property needs the score of a question,
      it takes the score that [evaluate] returns as given.
    - An exception is a value of [exn]; a call that may raise returns a
      [result].
    - The collaborators outside the repository (Unicode tables, embedding
      model, language model, prompt templates, nearest-neighbour ranking,
      the result counts the index refuses) are the fields of [Env]; the
      index class is [FAISS], as [routes.py] wires it. *)

From Stdlib Require Import Reals Lra Lia ZArith NArith List String Ascii Sorted.
From stdpp Require Import base option list gmap strings.

Local Open Scope Z_scope.

(** ** Python strings *)

Definition char := N.
Definition str := list char.

(** An ASCII literal as a Python string. *)
Definition lit (s : string) : str :=
  map (fun a => N_of_ascii a) (list_ascii_of_string s).

(** The Cyrillic literals of the sources:
    ['да'] in [detect_intent] and ['Ответ:'] in [get_llm_answer]. *)
Definition cyr_O : char := 0x41E%N.   (* О *)
Definition cyr_a : char := 0x430%N.   (* а *)
Definition cyr_v : char := 0x432%N.   (* в *)
Definition cyr_d : char := 0x434%N.   (* д *)
Definition cyr_e : char := 0x435%N.   (* е *)
Definition cyr_t : char := 0x442%N.   (* т *)
Definition colon : char := 0x3A%N.    (* : *)

Definition da : str := [cyr_d; cyr_a].
Definition Otvet : str := [cyr_O; cyr_t; cyr_v; cyr_e; cyr_t; colon].

Definition char_eqb (a b : char) : bool := N.eqb a b.

Fixpoint str_eqb (a b : str) : bool :=
  match a, b with
  | [], [] => true
  | x :: a', y :: b' => char_eqb x y && str_eqb a' b'
  | _, _ => false
  end.

(** [s.startswith(p)] *)
Fixpoint startswith (s p : str) : bool :=
  match p with
  | [] => true
  | c :: p' =>
      match s with
      | [] => false
      | d :: s' => char_eqb d c && startswith s' p'
      end
  end.

Definition mem_char (c : char) (cs : str) : bool := existsb (char_eqb c) cs.

Fixpoint lstrip_by (f : char -> bool) (s : str) : str :=
  match s with
  | [] => []
  | c :: s' => if f c then lstrip_by f s' else s
  end.

Definition rstrip_by (f : char -> bool) (s : str) : str :=
  rev (lstrip_by f (rev s)).

(** [s.strip(chars)]: [chars] is a set of characters, removed from both
    ends. *)
Definition strip_chars (chars s : str) : str :=
  rstrip_by (fun c => mem_char c chars) (lstrip_by (fun c => mem_char c chars) s).

(** [sep.join(parts)] *)
Fixpoint join (sep : str) (parts : list str) : str :=
  match parts with
  | [] => []
  | [p] => p
  | p :: rest => p ++ sep ++ join sep rest
  end.

(** ** Exceptions and results *)

Inductive exn :=
| AttributeError
| ValueError
| RuntimeError
| KeyError
| IndexError
| AssertionError
| ExternalError.    (* raised inside an injected capability *)

#[global] Instance exn_eq_dec : EqDecision exn.
Proof. solve_decision. Defined.

Inductive result (A : Type) :=
| Ok (a : A)
| Raise (e : exn).
Arguments Ok {A} a.
Arguments Raise {A} e.

Definition rbind {A B} (r : result A) (k : A -> result B) : result B :=
  match r with
  | Ok a => k a
  | Raise e => Raise e
  end.

Notation "x <-- r ;; k" := (rbind r (fun x => k))
  (at level 100, r at next level, right associativity).

(** ** Documents *)

Inductive value :=
| VNone
| VStr (s : str)
| VDate (year month day : Z).

Record Document := {
  page_content : str;
  metadata : gmap string value
}.

(** [document.metadata.get(key)] *)
Definition metadata_get (d : Document) (key : string) : value :=
  default VNone (metadata d !! key).

(** A chat message handed to the generation capability. *)
Inductive message :=
| SystemMessage (content : str)
| HumanMessage (content : str).

(** ** The collaborators outside the repository

    The character tables are exact on the _basic_ range, ASCII and the
    Cyrillic block U+0400..U+045F, which is all the literals of the sources
    use; outside it they are the Unicode tables of the Python runtime,
    taken from the environment. *)

Record Env := {
  (* Unicode tables of the runtime, consulted outside the basic range *)
  uni_space : char -> bool;               (* [str.isspace], [\s] *)
  uni_digit : char -> bool;               (* [\d] *)
  uni_digit_value : char -> Z;            (* [int] of a digit *)
  uni_word : char -> bool;                (* [\w] *)
  uni_lower : str -> str;                 (* [str.lower] *)
  (* [embeddings.embed_query] *)
  embed_query : str -> result (list R);
  (* [Config().PROMPTS[key].format(...)] with its single placeholder *)
  prompt_format : string -> str -> result str;
  (* [llm.invoke(prompt).content] *)
  llm_invoke : str -> result str;
  (* the [content] of each chunk of [llm.stream(messages)] *)
  llm_stream : list message -> result (list (option str));
  (* the vector index's order of the stored documents by distance to a
     question, nearest first *)
  rank : str -> list Document -> list Document;
  (* the exception with which the vector index refuses a result count, one
     it cannot allocate for, if it refuses it *)
  index_refuses : Z -> option exn
}.

Definition in_range (lo hi c : N) : bool := (N.leb lo c && N.leb c hi)%N.

Definition is_ascii (c : char) : bool := N.ltb c 128.
Definition is_cyrillic (c : char) : bool := in_range 0x400 0x45F c.
Definition is_basic (c : char) : bool := is_ascii c || is_cyrillic c.

Section Unicode.
Context (E : Env).

Definition is_space (c : char) : bool :=
  if is_ascii c then in_range 9 13 c || in_range 28 32 c
  else if is_cyrillic c then false
  else uni_space E c.

Definition is_digit (c : char) : bool :=
  if is_ascii c then in_range 48 57 c
  else if is_cyrillic c then false
  else uni_digit E c.

Definition is_word (c : char) : bool :=
  if is_ascii c then
    in_range 48 57 c || in_range 65 90 c || in_range 97 122 c || N.eqb c 95
  else if is_cyrillic c then true
  else uni_word E c.

Definition lower_char (c : char) : char :=
  if in_range 65 90 c then (c + 32)%N
  else if in_range 0x400 0x40F c then (c + 0x50)%N
  else if in_range 0x410 0x42F c then (c + 0x20)%N
  else c.

(** [s.lower()] *)
Definition lower (s : str) : str :=
  if forallb is_basic s then map lower_char s else uni_lower E s.

(** [s.strip()] *)
Definition strip (s : str) : str := rstrip_by is_space (lstrip_by is_space s).
End Unicode.

(** ** MetricEvaluator *)

Module MetricEvaluator.

Definition vec := list R.

Definition dot (x y : vec) : R := fold_right Rplus 0%R (zip_with Rmult x y).

(** [sklearn.preprocessing.normalize]: a row of norm zero is divided
    by one, not by its norm. *)
Definition row_scale (x : vec) : R :=
  let n := sqrt (dot x x) in if Req_dec_T n 0 then 1%R else n.

Definition normalize (x : vec) : vec := map (fun a => (a / row_scale x)%R) x.

(** One entry of [sklearn.metrics.pairwise.cosine_similarity]: the rows
    must have the same, non-zero, number of features. *)
Definition cosine_sim (x y : vec) : result R :=
  if negb (Nat.eqb (length x) (length y)) then Raise ValueError
  else if Nat.eqb (length x) 0 then Raise ValueError
  else Ok (dot (normalize x) (normalize y)).

Fixpoint str_compare (a b : str) : comparison :=
  match a, b with
  | [], [] => Eq
  | [], _ :: _ => Lt
  | _ :: _, [] => Gt
  | x :: a', y :: b' =>
      match N.compare x y with
      | Eq => str_compare a' b'
      | c => c
      end
  end.

Fixpoint vocab_insert (t : str) (v : list str) : list str :=
  match v with
  | [] => [t]
  | u :: v' =>
      match str_compare t u with
      | Lt => t :: v
      | Eq => v
      | Gt => u :: vocab_insert t v'
      end
  end.

(** The fitted vocabulary: the distinct tokens, sorted. *)
Definition vocabulary (toks : list str) : list str :=
  fold_right vocab_insert [] toks.

Definition count (t : str) (toks : list str) : nat :=
  length (filter (fun u => str_eqb t u = true) toks).

Definition count_vector (vocab toks : list str) : vec :=
  map (fun t => INR (count t toks)) vocab.

Section WithEnv.
Context (E : Env).

(** The runs of word characters of [s]; [cur] is the run being read,
    reversed. *)
Fixpoint word_runs (cur s : str) : list str :=
  match s with
  | [] => [rev cur]
  | c :: s' =>
      if is_word E c then word_runs (c :: cur) s'
      else rev cur :: word_runs [] s'
  end.

(** The analyzer of a default [CountVectorizer]: lower-case, then the
    matches of [(?u)\b\w\w+\b], the maximal runs of two or more word
    characters. *)
Definition tokens (s : str) : list str :=
  filter (fun w => (2 <= length w)%nat) (word_runs [] (lower E s)).

(** [CountVectorizer().fit_transform([str1, str2])] raises on an empty
    vocabulary. *)
Definition lexical_cosine_similarity (str1 str2 : str) : result R :=
  let d1 := tokens str1 in
  let d2 := tokens str2 in
  let vocab := vocabulary (d1 ++ d2) in
  match vocab with
  | [] => Raise ValueError
  | _ :: _ => cosine_sim (count_vector vocab d1) (count_vector vocab d2)
  end.

Definition get_embeddings (text : str) : result vec := embed_query E text.

Definition semantic_cosine_similarity (str1 str2 : str) : result R :=
  embeddings1 <-- get_embeddings str1 ;;
  embeddings2 <-- get_embeddings str2 ;;
  cosine_sim embeddings1 embeddings2.

Definition evaluate (str1 str2 : str) : result R :=
  lexical_score <-- lexical_cosine_similarity str1 str2 ;;
  semantic_score <-- semantic_cosine_similarity str1 str2 ;;
  Ok (0.5 * lexical_score + 0.5 * semantic_score)%R.
End WithEnv.

End MetricEvaluator.

(** ** Stateful code: a state and exception monad

    A method of an object with state [S] is a function from the state to a
    result and the state it leaves behind; a raised exception keeps the
    assignments made before it. *)

Definition M (S A : Type) : Type := S -> result A * S.

Definition ret {S A} (a : A) : M S A := fun s => (Ok a, s).
Definition raise {S A} (e : exn) : M S A := fun s => (Raise e, s).
Definition lift {S A} (r : result A) : M S A := fun s => (r, s).
Definition bind {S A B} (m : M S A) (k : A -> M S B) : M S B :=
  fun s =>
    match m s with
    | (Ok a, s') => k a s'
    | (Raise e, s') => (Raise e, s')
    end.
Definition read {S} : M S S := fun s => (Ok s, s).

(** [try: m except e: pass] *)
Definition try_except {S} (m : M S unit) (e : exn) : M S unit :=
  fun s =>
    match m s with
    | (Raise e', s') =>
        if decide (e' = e) then (Ok tt, s') else (Raise e', s')
    | r => r
    end.

Notation "x <~ m ;; k" := (bind m (fun x => k))
  (at level 100, m at next level, right associativity).
Notation "m ;;; k" := (bind m (fun _ => k))
  (at level 100, right associativity).

(** ** Retriever

    The vector index is a collaborator, the class [FAISS] that [routes.py]
    hands to the service; its objects are modelled as the list of the
    documents they hold, in insertion order.  A store object is shared by
    reference between the adapter and the queryable view made from it, so
    the adapter keeps the objects it has held in [objects] and refers to
    them by position; an object enters [objects] when it is assigned to
    [self.vectorstore]. *)

Module Retriever.

(** The object [vectorstore.as_retriever(search_kwargs={'k': k})]. *)
Record view := {
  view_store : nat;         (* the store object the view searches *)
  search_kwargs_k : Z       (* [search_kwargs['k']] *)
}.

Record t := {
  persisted : option (list Document);  (* the index saved at [index_path] *)
  k_search : Z;
  objects : list (list Document);      (* the store objects held so far *)
  vectorstore : option nat;
  retriever : option view;
  gets : list (str * option Z)         (* ghost: the calls of [get] so far *)
}.

Definition set_persisted (p : option (list Document)) (r : t) : t :=
  {| persisted := p; k_search := k_search r; objects := objects r;
     vectorstore := vectorstore r; retriever := retriever r; gets := gets r |}.
Definition set_objects (o : list (list Document)) (r : t) : t :=
  {| persisted := persisted r; k_search := k_search r; objects := o;
     vectorstore := vectorstore r; retriever := retriever r; gets := gets r |}.
Definition set_vectorstore (v : option nat) (r : t) : t :=
  {| persisted := persisted r; k_search := k_search r; objects := objects r;
     vectorstore := v; retriever := retriever r; gets := gets r |}.
Definition set_retriever (v : option view) (r : t) : t :=
  {| persisted := persisted r; k_search := k_search r; objects := objects r;
     vectorstore := vectorstore r; retriever := v; gets := gets r |}.
Definition log_get (q : str) (k : option Z) (r : t) : t :=
  {| persisted := persisted r; k_search := k_search r; objects := objects r;
     vectorstore := vectorstore r; retriever := retriever r;
     gets := gets r ++ [(q, k)] |}.

Definition update (f : t -> t) : M t unit := fun r => (Ok tt, f r).

(** [Retriever(indexer, embeddings, index_path, k_search)]; [disk] is
    what is stored at [index_path]. *)
Definition init (disk : option (list Document)) (k_search : Z) : t :=
  {| persisted := disk; k_search := k_search; objects := [];
     vectorstore := None; retriever := None; gets := [] |}.

Section WithEnv.
Context (E : Env).

(** A store object enters the adapter; returns its reference. *)
Definition alloc (docs : list Document) : M t nat :=
  fun r => (Ok (length (objects r)), set_objects (objects r ++ [docs]) r).

Fixpoint embed_documents (texts : list str) : result (list (list R)) :=
  match texts with
  | [] => Ok []
  | x :: rest =>
      v <-- embed_query E x ;;
      vs <-- embed_documents rest ;;
      Ok (v :: vs)
  end.

(** [indexer.from_documents(documents, embeddings)], a new store: it
    embeds every document; the index is sized from the first embedding, so
    an empty list raises. *)
Definition from_documents (documents : list Document)
  : result (list Document) :=
  _ <-- embed_documents (map page_content documents) ;;
  match documents with
  | [] => Raise IndexError
  | _ :: _ => Ok documents
  end.

(** [indexer.load_local(folder_path=index_path, ...)] *)
Definition load_local : M t (list Document) :=
  r <~ read ;;
  match persisted r with
  | None => raise RuntimeError
  | Some docs => ret docs
  end.

Definition deref (ref : nat) (r : t) : list Document :=
  default [] (objects r !! ref).

(** [self.vectorstore.save_local(folder_path=self.index_path)] *)
Definition save : M t unit :=
  r <~ read ;;
  match vectorstore r with
  | None => raise AttributeError
  | Some ref => update (set_persisted (Some (deref ref r)))
  end.

(** [target.merge(other)]: the class [FAISS] has a method [merge_from] and
    none called [merge], so the attribute access raises. *)
Definition merge (target : nat) (other : list Document) : M t unit :=
  raise AttributeError.

Definition as_retriever (ref : nat) (k : Z) : view :=
  {| view_store := ref; search_kwargs_k := k |}.

(** [view.search_kwargs['k'] = k] *)
Definition set_k (k : Z) (v : view) : view :=
  {| view_store := view_store v; search_kwargs_k := k |}.

Definition setup : M t unit :=
  r <~ read ;;
  match vectorstore r with
  | None => raise AttributeError
  | Some ref => update (set_retriever (Some (as_retriever ref (k_search r))))
  end.

(** [self.vectorstore = store] *)
Definition assign (store : list Document) : M t unit :=
  ref <~ alloc store ;;
  update (set_vectorstore (Some ref)).

Definition build (documents : list Document) : M t unit :=
  store <~ lift (from_documents documents) ;;
  assign store ;;;
  save.

Definition load : M t unit :=
  try_except
    (store <~ load_local ;; assign store)
    RuntimeError.

Definition set (documents : list Document) : M t unit :=
  vectorstore_ <~ lift (from_documents documents) ;;
  r <~ read ;;
  match vectorstore r with
  | Some ref => merge ref vectorstore_
  | None => assign vectorstore_
  end ;;;
  save ;;;
  r <~ read ;;
  match vectorstore r with
  | None => raise AttributeError
  | Some ref => update (set_retriever (Some (as_retriever ref (k_search r))))
  end.

(** [view.invoke(question)]: the [k] nearest documents; the index
    asserts [k > 0] and may refuse a [k] it cannot allocate for. *)
Definition invoke (v : view) (question : str) : M t (list Document) :=
  _ <~ lift (embed_query E question) ;;
  if search_kwargs_k v <=? 0 then raise AssertionError
  else
    match index_refuses E (search_kwargs_k v) with
    | Some e => raise e
    | None =>
        r <~ read ;;
        ret (take (Z.to_nat (search_kwargs_k v))
                  (rank E question (deref (view_store v) r)))
    end.

(** [if k:] for [k : int = None] *)
Definition truthy (k : option Z) : option Z :=
  match k with
  | Some n => if n =? 0 then None else Some n
  | None => None
  end.

Definition get (question : str) (k : option Z) : M t (list Document) :=
  update (log_get question k) ;;;
  r <~ read ;;
  match truthy k with
  | Some n =>
      match retriever r with
      | None => raise AttributeError
      | Some v => update (set_retriever (Some (set_k n v)))
      end
  | None => ret tt
  end ;;;
  r <~ read ;;
  match retriever r with
  | None => raise AttributeError
  | Some v => invoke v question
  end.
End WithEnv.

End Retriever.

(** ** Regular expressions

    The fragment of Python's [re] that the sources use, with its
    backtracking order: the left alternative first, repetitions greedy. *)

Module Regex.

Inductive re :=
| Eps
| Cls (f : char -> bool)
| Seq (a b : re)
| Alt (a b : re)
| Star (a : re)
| Group (i : nat) (a : re).

Definition Chr (c : char) : re := Cls (char_eqb c).
Definition Opt (a : re) : re := Alt a Eps.
Definition Plus (a : re) : re := Seq a (Star a).
Definition Lit (s : str) : re := fold_right (fun c r => Seq (Chr c) r) Eps s.
Fixpoint Rep (n : nat) (a : re) : re :=
  match n with
  | O => Eps
  | S n' => Seq a (Rep n' a)
  end.

(** Captured groups, the latest capture of a group first. *)
Definition caps := list (nat * str).

(** [run r s c k]: match [r] at the head of [s], then continue with [k]
    on the rest; [None] asks the caller to backtrack. *)
Fixpoint run {A} (r : re) (s : str) (c : caps)
         (k : str -> caps -> option A) : option A :=
  match r with
  | Eps => k s c
  | Cls f =>
      match s with
      | x :: s' => if f x then k s' c else None
      | [] => None
      end
  | Seq a b => run a s c (fun s' c' => run b s' c' k)
  | Alt a b =>
      match run a s c k with
      | Some x => Some x
      | None => run b s c k
      end
  | Star a =>
      (fix loop (n : nat) (s : str) (c : caps) : option A :=
         match n with
         | O => k s c
         | S n' =>
             match run a s c (fun s' c' =>
                      if (length s' <? length s)%nat then loop n' s' c'
                      else None) with
             | Some x => Some x
             | None => k s c
             end
         end) (length s) s c
  | Group i a =>
      run a s c (fun s' c' => k s' ((i, take (length s - length s') s) :: c'))
  end.

Record match_obj := {
  m_start : nat;
  m_text : str;       (* [group(0)] *)
  m_caps : caps
}.

Definition group (m : match_obj) (i : nat) : str :=
  match find (fun p => Nat.eqb (fst p) i) (m_caps m) with
  | Some p => snd p
  | None => []
  end.

(** [pattern.match(s)], at position [pos] of the whole text. *)
Definition match_at (r : re) (pos : nat) (s : str) : option match_obj :=
  run r s [] (fun s' c =>
    Some {| m_start := pos; m_text := take (length s - length s') s; m_caps := c |}).

Fixpoint search_from (r : re) (pos : nat) (s : str) : option match_obj :=
  match match_at r pos s with
  | Some m => Some m
  | None =>
      match s with
      | [] => None
      | _ :: s' => search_from r (S pos) s'
      end
  end.

(** [pattern.search(s)]: the leftmost match. *)
Definition search (r : re) (s : str) : option match_obj := search_from r 0 s.

(** [pattern.match(s)] followed by the test that the match ends where
    [s] ends. *)
Definition fullmatch_first (r : re) (s : str) : option match_obj :=
  match match_at r 0 s with
  | Some m => if Nat.eqb (length (m_text m)) (length s) then Some m else None
  | None => None
  end.

End Regex.

(** [s.replace(old, '')]: every occurrence of [old], left to right, without
    overlap; [skip] counts the characters of an occurrence still to drop. *)
Fixpoint remove_aux (old : str) (skip : nat) (s : str) : str :=
  match s with
  | [] => []
  | c :: s' =>
      match skip with
      | S n => remove_aux old n s'
      | O =>
          if startswith s old then remove_aux old (length old - 1) s'
          else c :: remove_aux old 0 s'
      end
  end.

Definition remove_all (old s : str) : str :=
  match old with
  | [] => s
  | _ :: _ => remove_aux old 0 s
  end.

(** ** Reader *)

Module Reader.
Import Regex.

Section WithEnv.
Context (E : Env).

Definition space : re := Cls (is_space E).
Definition nonspace : re := Cls (fun c => negb (is_space E c)).
Definition digit : re := Cls (is_digit E).
Definition range (lo hi : string) : re :=
  match lit lo, lit hi with
  | [a], [b] => Cls (in_range a b)
  | _, _ => Cls (fun _ => false)
  end.

(** [r' Metadata\s*link: (https?://[^\s]+)\s*date: (\d{2}-\d{4})'] *)
Definition metadata_pattern : re :=
  Seq (Lit (lit " Metadata"))
 (Seq (Star space)
 (Seq (Lit (lit "link: "))
 (Seq (Group 1
         (Seq (Lit (lit "http"))
         (Seq (Opt (Lit (lit "s")))
         (Seq (Lit (lit "://"))
              (Plus nonspace)))))
 (Seq (Star space)
 (Seq (Lit (lit "date: "))
      (Group 2
         (Seq (Rep 2 digit)
         (Seq (Lit (lit "-"))
              (Rep 4 digit))))))))).

(** The pattern that [datetime.strptime] builds for ['%d-%m-%Y']:
    [(?P<d>3[0-1]|[1-2]\d|0[1-9]|[1-9]| [1-9])-(?P<m>1[0-2]|0[1-9]|[1-9])-(?P<Y>\d\d\d\d)] *)
Definition dmY_pattern : re :=
  Seq (Group 1
         (Alt (Seq (Lit (lit "3")) (range "0" "1"))
         (Alt (Seq (range "1" "2") digit)
         (Alt (Seq (Lit (lit "0")) (range "1" "9"))
         (Alt (range "1" "9")
              (Seq (Lit (lit " ")) (range "1" "9")))))))
 (Seq (Lit (lit "-"))
 (Seq (Group 2
         (Alt (Seq (Lit (lit "1")) (range "0" "2"))
         (Alt (Seq (Lit (lit "0")) (range "1" "9"))
              (range "1" "9"))))
 (Seq (Lit (lit "-"))
      (Group 3 (Rep 4 digit))))).

Definition digit_value (c : char) : Z :=
  if is_ascii c then Z.of_N c - 48 else uni_digit_value E c.

(** [int(s)] for a string of digits, with the surrounding blanks that
    [int] accepts dropped. *)
Definition int_of (s : str) : Z :=
  fold_left (fun acc c => 10 * acc + digit_value c) (strip E s) 0.

Definition is_leap (y : Z) : bool :=
  ((y mod 4 =? 0) && negb (y mod 100 =? 0)) || (y mod 400 =? 0).

Definition days_in_month (y m : Z) : Z :=
  if m =? 2 then (if is_leap y then 29 else 28)
  else if (m =? 4) || (m =? 6) || (m =? 9) || (m =? 11) then 30
  else 31.

(** [datetime.strptime(date_str, '%d-%m-%Y')] *)
Definition strptime_dmY (date_str : str) : result value :=
  match fullmatch_first dmY_pattern date_str with
  | None => Raise ValueError
  | Some m =>
      let d := int_of (group m 1) in
      let mo := int_of (group m 2) in
      let y := int_of (group m 3) in
      if (1 <=? y) && (y <=? 9999) && (1 <=? mo) && (mo <=? 12)
         && (1 <=? d) && (d <=? days_in_month y mo)
      then Ok (VDate y mo d)
      else Raise ValueError
  end.

Definition extract_metadata (text : str)
  : result (str * gmap string value) :=
  match search metadata_pattern text with
  | Some m =>
      let metadata_text := m_text m in
      let clean_text := strip E (remove_all metadata_text text) in
      let link := strip E (group m 1) in
      let date_str := strip E (group m 2) in
      date <-- match strptime_dmY date_str with
               | Raise ValueError => Ok VNone
               | r => r
               end ;;
      Ok (clean_text, <["link" := VStr link]> (<["date" := date]> ∅))
  | None => Ok (text, ∅)
  end.

Definition endswith (s suffix : str) : bool :=
  startswith (rev s) (rev suffix).

(** [read_documents]: [files] are the files under the directory in
    the order of [os.walk], each with its name and what reading it
    gives. *)
Fixpoint read_documents (files : list (str * result str))
  : result (list Document) :=
  match files with
  | [] => Ok []
  | (file, content) :: rest =>
      if endswith file (lit ".md") then
        content <-- content ;;
        tm <-- extract_metadata content ;;
        documents <-- read_documents rest ;;
        Ok ({| page_content := fst tm; metadata := snd tm |} :: documents)
      else read_documents rest
  end.
End WithEnv.

End Reader.

(** ** QAService *)

Module QAService.

Record t := {
  cache : Retriever.t;
  retriever : Retriever.t;
  threshold : R
}.

Definition on_cache {A} (m : M Retriever.t A) : M t A :=
  fun s =>
    let (r, c) := m (cache s) in
    (r, {| cache := c; retriever := retriever s; threshold := threshold s |}).

Definition on_retriever {A} (m : M Retriever.t A) : M t A :=
  fun s =>
    let (r, c) := m (retriever s) in
    (r, {| cache := cache s; retriever := c; threshold := threshold s |}).

(** [a > b] on scores *)
Definition gtb (a b : R) : bool := if Rgt_dec a b then true else false.

(** [Document(page_content=question, metadata={"answer": answer})] *)
Definition cache_document (question answer : str) : Document :=
  {| page_content := question; metadata := {[ "answer" := VStr answer ]} |}.

(** ["\n\n"] *)
Definition nlnl : str := [10%N; 10%N].

Section WithEnv.
Context (E : Env).

(** [# Cache load and setup] *)
Definition init_cache : M t unit :=
  on_cache Retriever.load ;;;
  s <~ read ;;
  match Retriever.vectorstore (cache s) with
  | Some _ => on_cache Retriever.setup
  | None => ret tt
  end.

(** [# Retriever load and setup]; [files] are the files under
    [data_path]. *)
Definition init_retriever (files : list (str * result str)) : M t unit :=
  on_retriever Retriever.load ;;;
  s <~ read ;;
  match Retriever.vectorstore (retriever s) with
  | None =>
      documents <~ lift (Reader.read_documents E files) ;;
      on_retriever (Retriever.build E documents)
  | Some _ => ret tt
  end ;;;
  on_retriever Retriever.setup.

(** [QAService(indexer, embeddings, index_path, data_path, llm,
    k_search, threshold)]: the service, unless the constructor raises.
    [cache_disk] and [index_disk] are the indexes stored under
    [index_path]. *)
Definition init (cache_disk index_disk : option (list Document))
           (files : list (str * result str))
           (k_search : Z) (threshold : R) : result t :=
  match (init_cache ;;; init_retriever files)
          {| cache := Retriever.init cache_disk k_search;
             retriever := Retriever.init index_disk k_search;
             threshold := threshold |} with
  | (Ok _, self) => Ok self
  | (Raise e, _) => Raise e
  end.

Definition detect_intent (que : str) : result bool :=
  prompt <-- prompt_format E "intent" que ;;
  reply <-- llm_invoke E prompt ;;
  let intent := lower E reply in
  Ok (if startswith intent da then false else true).

(** The loop of [filter_based_on_metric], [kept] being the list
    [result] built so far. *)
Fixpoint filter_loop (threshold : R) (question : str)
         (kept : list Document) (documents : list Document)
  : result (list Document) :=
  match documents with
  | [] => Ok kept
  | document :: rest =>
      score <-- MetricEvaluator.evaluate E question (page_content document) ;;
      filter_loop threshold question
        (if gtb score threshold then kept ++ [document] else kept) rest
  end.

Definition filter_based_on_metric (self : t) (question : str)
           (documents : list Document) : result (list Document) :=
  filter_loop (threshold self) question [] documents.

(** The value is [None] for Python's [None] and [Some l] for the list
    [l]. *)
Definition get_cached_answer (question : str) (k : option Z)
  : M t (option (list value)) :=
  documents <~ on_cache (Retriever.get E question k) ;;
  match documents with
  | _ :: _ =>
      self <~ read ;;
      documents <~ lift (filter_based_on_metric self question documents) ;;
      match documents with
      | [] => ret None
      | _ :: _ =>
          ret (Some (map (fun document => metadata_get document "answer") documents))
      end
  | [] =>
      ret (Some (map (fun document => metadata_get document "answer") documents))
  end.

(** Lines 124 to 127 of [get_llm_answer]: the context. *)
Definition llm_context (question : str) : M t str :=
  needed <~ lift (detect_intent question) ;;
  if needed then
    documents <~ on_retriever (Retriever.get E question None) ;;
    ret (join nlnl (map page_content documents))
  else ret [].

(** The loop over [llm.stream(messages)]; a chunk without content
    adds nothing. *)
Definition accumulate (chunks : list (option str)) : str :=
  fold_left (fun result content => result ++ default [] content) chunks [].

Definition get_llm_answer (question : str) : M t str :=
  context <~ llm_context question ;;
  system <~ lift (prompt_format E "system" context) ;;
  user <~ lift (prompt_format E "user" question) ;;
  let messages := [SystemMessage system; HumanMessage user] in
  chunks <~ lift (llm_stream E messages) ;;
  let result := accumulate chunks in
  ret (strip_chars Otvet result).

(** [qa_pairs] are the items of the dictionary, in its order. *)
Definition set_cache (qa_pairs : list (str * str)) : M t unit :=
  let documents :=
    map (fun qa => cache_document (fst qa) (snd qa)) qa_pairs in
  on_cache (Retriever.set E documents).

(** Whether [filter_based_on_metric] keeps a document: its score is
    defined and above the threshold. *)
Definition passes (threshold : R) (question : str) (document : Document)
  : bool :=
  match MetricEvaluator.evaluate E question (page_content document) with
  | Ok score => gtb score threshold
  | Raise _ => false
  end.
End WithEnv.

End QAService.

(** ** What a pattern matches

    The matches of a pattern, as a relation: [matches r s c s' c'] when [r]
    matches a prefix of [s] and leaves [s'], turning the captures [c] into
    [c'].  [Regex.run] searches this relation in Python's order. *)

Module RegexSpec.
Import Regex.

Inductive matches : re -> str -> caps -> str -> caps -> Prop :=
| matches_eps s c : matches Eps s c s c
| matches_cls f x s c : f x = true -> matches (Cls f) (x :: s) c s c
| matches_seq a b s c s1 c1 s2 c2 :
    matches a s c s1 c1 -> matches b s1 c1 s2 c2 ->
    matches (Seq a b) s c s2 c2
| matches_alt_l a b s c s1 c1 :
    matches a s c s1 c1 -> matches (Alt a b) s c s1 c1
| matches_alt_r a b s c s1 c1 :
    matches b s c s1 c1 -> matches (Alt a b) s c s1 c1
| matches_star_stop a s c : matches (Star a) s c s c
| matches_star_step a s c s1 c1 s2 c2 :
    matches a s c s1 c1 -> matches (Star a) s1 c1 s2 c2 ->
    matches (Star a) s c s2 c2
| matches_group i a s c s1 c1 :
    matches a s c s1 c1 ->
    matches (Group i a) s c s1 ((i, take (length s - length s1) s) :: c1).

End RegexSpec.

(** ** LLM: the stand-in model of [LLM.py] *)

Module DummyLLM.

(** ['Это пример ответа от модели. Ответ:'] *)
Definition reply : str :=
  [0x42D; 0x442; 0x43E; 0x20; 0x43F; 0x440; 0x438; 0x43C; 0x435; 0x440; 0x20;
   0x43E; 0x442; 0x432; 0x435; 0x442; 0x430; 0x20; 0x43E; 0x442; 0x20;
   0x43C; 0x43E; 0x434; 0x435; 0x43B; 0x438; 0x2E; 0x20;
   0x41E; 0x442; 0x432; 0x435; 0x442; 0x3A]%N.

(** [DummyLLM().invoke(question).content] *)
Definition invoke (question : str) : result str := Ok da.

(** The [content] of the chunks of [DummyLLM().stream(messages)] *)
Definition stream (messages : list message) : result (list (option str)) :=
  Ok [Some reply].

(** The environment with [llm = DummyLLM()], as [routes.py] sets it. *)
Definition wire (E : Env) : Env :=
  {| uni_space := uni_space E; uni_digit := uni_digit E;
     uni_digit_value := uni_digit_value E; uni_word := uni_word E;
     uni_lower := uni_lower E; embed_query := embed_query E;
     prompt_format := prompt_format E;
     llm_invoke := invoke; llm_stream := stream;
     rank := rank E; index_refuses := index_refuses E |}.

End DummyLLM.

(** ** routes: the three endpoints over the one service of the process *)

Module Routes.

(** The value sent under ["response"]. *)
Inductive response :=
| RFalse                          (* [False] *)
| RNone                           (* [None] *)
| RAnswers (answers : list value) (* what [get_cached_answer] returned *)
| RText (text : str).             (* what [get_llm_answer] returned *)

Definition of_cached (r : option (list value)) : response :=
  match r with
  | None => RNone
  | Some answers => RAnswers answers
  end.

(** [not response] for what [get_cached_answer] returns *)
Definition falsy (r : option (list value)) : bool :=
  match r with
  | None => true
  | Some [] => true
  | Some (_ :: _) => false
  end.

Section WithEnv.
Context (E : Env).

(** [GET /ask]: an exception leaves [response] as it was last assigned. *)
Definition ask (question : str) (qa_service : QAService.t)
  : response * QAService.t :=
  match QAService.get_cached_answer E question (Some 1) qa_service with
  | (Raise _, s1) => (RFalse, s1)
  | (Ok r, s1) =>
      if falsy r then
        match QAService.get_llm_answer E question s1 with
        | (Ok text, s2) => (RText text, s2)
        | (Raise _, s2) => (of_cached r, s2)
        end
      else (of_cached r, s1)
  end.

(** [GET /ask-llm] *)
Definition ask_llm (question : str) (qa_service : QAService.t)
  : response * QAService.t :=
  match QAService.get_llm_answer E question qa_service with
  | (Ok text, s1) => (RText text, s1)
  | (Raise _, s1) => (RFalse, s1)
  end.

(** [POST /set-cache]: [data] is what [await request.json()] gives;
    [QAService.set_cache] returns [None]. *)
Definition set_cache (data : result (list (str * str)))
           (qa_service : QAService.t) : response * QAService.t :=
  match data with
  | Raise _ => (RFalse, qa_service)
  | Ok qa_pairs =>
      match QAService.set_cache E qa_pairs qa_service with
      | (Ok tt, s1) => (RNone, s1)
      | (Raise _, s1) => (RFalse, s1)
      end
  end.
End WithEnv.

End Routes.

(** The order in which [MetricEvaluator.vocabulary] sorts the tokens. *)
Definition lt_str (a b : str) : Prop := MetricEvaluator.str_compare a b = Lt.

(** ** A concrete environment

    Used to run the definitions: no character outside the basic range,
    every text embedded as the same unit vector, prompts that are their
    argument, a language model that repeats what it is given, and an index
    that ranks the documents in insertion order and refuses no result
    count. *)

Definition message_content (m : message) : str :=
  match m with
  | SystemMessage c => c
  | HumanMessage c => c
  end.

Definition demo_env : Env := {|
  uni_space := fun _ => false;
  uni_digit := fun _ => false;
  uni_digit_value := fun _ => 0;
  uni_word := fun _ => false;
  uni_lower := fun s => s;
  embed_query := fun _ => Ok [1%R];
  prompt_format := fun _ s => Ok s;
  llm_invoke := fun prompt => Ok prompt;
  llm_stream := fun messages => Ok (map (fun m => Some (message_content m)) messages);
  rank := fun _ documents => documents;
  index_refuses := fun _ => None
|}.

(** A cache adapter holding [docs] in one store object, set up with
    [k_search]. *)
Definition demo_adapter (docs : list Document) (k_search : Z) : Retriever.t :=
  {| Retriever.persisted := Some docs;
     Retriever.k_search := k_search;
     Retriever.objects := [docs];
     Retriever.vectorstore := Some 0%nat;
     Retriever.retriever := Some (Retriever.as_retriever 0 k_search);
     Retriever.gets := [] |}.

Definition demo_service (cache_docs : list Document) (threshold : R)
  : QAService.t :=
  {| QAService.cache := demo_adapter cache_docs 5;
     QAService.retriever := demo_adapter [QAService.cache_document (lit "corpus text") []] 5;
     QAService.threshold := threshold |}.

Definition demo_first : Document := QAService.cache_document (lit "ab") (lit "first").
Definition demo_second : Document := QAService.cache_document (lit "cd") (lit "second").
Definition demo_docs : list Document := [demo_first; demo_second].

(** The service as [routes.py] builds it on a first run: a corpus index on
    disk, no cache index. *)
Definition demo_cold_start : QAService.t :=
  {| QAService.cache := Retriever.init None 5;
     QAService.retriever :=
       {| Retriever.persisted := Some demo_docs;
          Retriever.k_search := 5;
          Retriever.objects := [demo_docs];
          Retriever.vectorstore := Some 0%nat;
          Retriever.retriever := Some (Retriever.as_retriever 0 5);
          Retriever.gets := [] |};
     QAService.threshold := 0.5 |}.

Definition demo_third : Document := QAService.cache_document (lit "ef") (lit "third").

(** A call of [get] with [k = 1], a call of [setup], and a call of [get]
    without [k], on an adapter configured with [k_search = 5]. *)
Definition demo_get_setup_get : M Retriever.t (list Document) :=
  Retriever.get demo_env (lit "ab") (Some 1) ;;;
  Retriever.setup ;;;
  Retriever.get demo_env (lit "ab") None.

(** ['Привет'] *)
Definition privet : str := [0x41F; 0x440; 0x438; cyr_v; cyr_e; cyr_t]%N.

(** ['Да, Привет']: with [demo_env] the intent reply is the question, so
    this question needs no retrieval. *)
Definition demo_yes : str := [0x414%N; cyr_a] ++ lit ", " ++ privet.

(** A text that ends in a metadata block, one field per line. *)
Definition with_metadata_block (body link date : string) : str :=
  lit body ++ lit " Metadata" ++ [10%N] ++ lit "link: " ++ lit link ++ [10%N]
    ++ lit "date: " ++ lit date.

(** [demo_env] with an embedding capability that is down. *)
Definition demo_env_down : Env := {|
  uni_space := uni_space demo_env;
  uni_digit := uni_digit demo_env;
  uni_digit_value := uni_digit_value demo_env;
  uni_word := uni_word demo_env;
  uni_lower := uni_lower demo_env;
  embed_query := fun _ => Raise ExternalError;
  prompt_format := prompt_format demo_env;
  llm_invoke := llm_invoke demo_env;
  llm_stream := llm_stream demo_env;
  rank := rank demo_env;
  index_refuses := index_refuses demo_env
|}.

(** * Properties *)

(** ** The scorer *)

Section ScorerFacts.
Import MetricEvaluator.

Lemma dot_nil_l (y : vec) : dot [] y = 0%R.
Proof. reflexivity. Qed.

Lemma dot_cons (a b : R) (x y : vec) :
  dot (a :: x) (b :: y) = (a * b + dot x y)%R.
Proof. reflexivity. Qed.

Lemma dot_zeros_l (x y : vec) : Forall (fun a => a = 0%R) x -> dot x y = 0%R.
Proof.
  intros H. revert y. induction H as [|a x Ha _ IH]; intros [|b y]; try reflexivity.
  rewrite dot_cons, IH, Ha. lra.
Qed.

Lemma normalize_zeros (x : vec) :
  Forall (fun a => a = 0%R) x -> Forall (fun a => a = 0%R) (normalize x).
Proof.
  intros H. unfold normalize. generalize (row_scale x). intros sc.
  induction H as [|a x Ha _ IH]; simpl; constructor; [|exact IH].
  rewrite Ha. unfold Rdiv. lra.
Qed.

Lemma cosine_sim_zero_l (x y : vec) :
  Forall (fun a => a = 0%R) x -> length x = length y -> length x <> 0%nat ->
  cosine_sim x y = Ok 0%R.
Proof.
  intros Hz Hl Hn. unfold cosine_sim.
  rewrite Hl, Nat.eqb_refl. simpl.
  destruct (Nat.eqb_spec (length y) 0) as [e|_]; [congruence|].
  f_equal. apply dot_zeros_l, normalize_zeros, Hz.
Qed.

Lemma dot_comm (x y : vec) : dot x y = dot y x.
Proof.
  revert y. induction x as [|a x IH]; intros [|b y]; try reflexivity.
  rewrite !dot_cons, IH. lra.
Qed.

Lemma cosine_sim_zero_r (x y : vec) :
  Forall (fun a => a = 0%R) y -> length x = length y -> length x <> 0%nat ->
  cosine_sim x y = Ok 0%R.
Proof.
  intros Hz Hl Hn. unfold cosine_sim.
  rewrite Hl, Nat.eqb_refl. simpl.
  destruct (Nat.eqb_spec (length y) 0) as [e|_]; [congruence|].
  f_equal. rewrite dot_comm. apply dot_zeros_l, normalize_zeros, Hz.
Qed.

Lemma row_scale_one (x : vec) : dot x x = 1%R -> row_scale x = 1%R.
Proof.
  intros H. unfold row_scale. rewrite H, sqrt_1.
  destruct (Req_dec_T 1 0); reflexivity.
Qed.

Lemma cosine_sim_1_1 : cosine_sim [1%R] [1%R] = Ok 1%R.
Proof.
  unfold cosine_sim. simpl. f_equal. unfold normalize.
  rewrite row_scale_one by (unfold dot; simpl; lra).
  unfold dot. simpl. lra.
Qed.

Lemma cosine_sim_orthogonal :
  cosine_sim [1%R; 0%R] [0%R; 1%R] = Ok 0%R.
Proof.
  unfold cosine_sim. simpl. f_equal. unfold normalize.
  rewrite !row_scale_one by (unfold dot; simpl; lra).
  unfold dot. simpl. lra.
Qed.
End ScorerFacts.

Section DemoScores.
Import MetricEvaluator.

Lemma lexical_demo_same :
  lexical_cosine_similarity demo_env (lit "ab") (lit "ab") = Ok 1%R.
Proof.
  unfold lexical_cosine_similarity.
  change (tokens demo_env (lit "ab")) with [lit "ab"].
  change (vocabulary ([lit "ab"] ++ [lit "ab"])) with [lit "ab"].
  change (count_vector [lit "ab"] [lit "ab"]) with [INR 1].
  simpl INR. apply cosine_sim_1_1.
Qed.

Lemma lexical_demo_disjoint :
  lexical_cosine_similarity demo_env (lit "ab") (lit "cd") = Ok 0%R.
Proof.
  unfold lexical_cosine_similarity.
  change (tokens demo_env (lit "ab")) with [lit "ab"].
  change (tokens demo_env (lit "cd")) with [lit "cd"].
  change (vocabulary ([lit "ab"] ++ [lit "cd"])) with [lit "ab"; lit "cd"].
  change (count_vector [lit "ab"; lit "cd"] [lit "ab"]) with [INR 1; INR 0].
  change (count_vector [lit "ab"; lit "cd"] [lit "cd"]) with [INR 0; INR 1].
  simpl INR. apply cosine_sim_orthogonal.
Qed.

Lemma semantic_demo (a b : str) :
  semantic_cosine_similarity demo_env a b = Ok 1%R.
Proof. unfold semantic_cosine_similarity. simpl. apply cosine_sim_1_1. Qed.

Lemma evaluate_demo_same : evaluate demo_env (lit "ab") (lit "ab") = Ok 1%R.
Proof.
  unfold evaluate. rewrite lexical_demo_same, semantic_demo. simpl.
  f_equal. lra.
Qed.

Lemma evaluate_demo_disjoint :
  evaluate demo_env (lit "ab") (lit "cd") = Ok 0.5%R.
Proof.
  unfold evaluate. rewrite lexical_demo_disjoint, semantic_demo. simpl.
  f_equal. lra.
Qed.
End DemoScores.

(** ** Tokens and the lexical score *)

Section Lexical.
Import MetricEvaluator.
Context (E : Env).

Lemma vocab_insert_nonempty (t : str) (v : list str) : vocab_insert t v <> [].
Proof.
  destruct v as [|u v]; simpl; [discriminate|].
  destruct (str_compare t u); discriminate.
Qed.

Lemma vocabulary_nonempty (toks : list str) :
  toks <> [] -> vocabulary toks <> [].
Proof.
  destruct toks as [|t toks]; [congruence|]. intros _.
  apply vocab_insert_nonempty.
Qed.

Lemma count_vector_no_tokens (vocab : list str) :
  Forall (fun a => a = 0%R) (count_vector vocab []).
Proof. induction vocab; simpl; constructor; auto. Qed.

Lemma count_vector_length (vocab toks : list str) :
  length (count_vector vocab toks) = length vocab.
Proof. apply length_map. Qed.

Lemma lexical_one_side (str1 str2 : str) :
  (tokens E str1 = [] \/ tokens E str2 = []) ->
  ~ (tokens E str1 = [] /\ tokens E str2 = []) ->
  lexical_cosine_similarity E str1 str2 = Ok 0%R.
Proof.
  intros Hone Hnot. unfold lexical_cosine_similarity.
  assert (vocabulary (tokens E str1 ++ tokens E str2) <> []) as Hv.
  { apply vocabulary_nonempty. intros H. apply app_eq_nil in H. tauto. }
  destruct (vocabulary (tokens E str1 ++ tokens E str2)) as [|t vocab] eqn:Hvoc;
    [congruence|].
  destruct Hone as [H|H]; rewrite H.
  - apply cosine_sim_zero_l.
    + apply count_vector_no_tokens.
    + now rewrite !count_vector_length.
    + rewrite count_vector_length. discriminate.
  - apply cosine_sim_zero_r.
    + apply count_vector_no_tokens.
    + now rewrite !count_vector_length.
    + rewrite count_vector_length. discriminate.
Qed.

Lemma lexical_no_tokens (str1 str2 : str) :
  tokens E str1 = [] -> tokens E str2 = [] ->
  lexical_cosine_similarity E str1 str2 = Raise ValueError.
Proof. intros H1 H2. unfold lexical_cosine_similarity. now rewrite H1, H2. Qed.
End Lexical.

(** C5 as stated fails: when neither string has a token, here the empty
    string and a one-letter word, the vocabulary is empty and [evaluate]
    raises [ValueError]. *)
Lemma evaluate_no_tokens_raises :
  MetricEvaluator.tokens demo_env (lit "") = []
  /\ MetricEvaluator.tokens demo_env (lit "a") = []
  /\ MetricEvaluator.evaluate demo_env (lit "") (lit "a") = Raise ValueError
  /\ MetricEvaluator.evaluate demo_env (lit "") (lit "") = Raise ValueError.
Proof. repeat split; reflexivity. Qed.

(** C5, amended. When exactly one of the two strings has no token,
    [evaluate("", "anything")] for one, the lexical component is 0 and
    [evaluate] returns half the semantic score, provided the embedding
    capability returns two vectors of one positive length.  When neither
    string has a token, [evaluate] raises [ValueError]. *)
Theorem evaluate_without_tokens (E : Env) (str1 str2 : str) :
  (MetricEvaluator.tokens E str1 = [] \/ MetricEvaluator.tokens E str2 = [] ->
   ~ (MetricEvaluator.tokens E str1 = [] /\ MetricEvaluator.tokens E str2 = []) ->
   MetricEvaluator.lexical_cosine_similarity E str1 str2 = Ok 0%R
   /\ forall e1 e2,
        embed_query E str1 = Ok e1 -> embed_query E str2 = Ok e2 ->
        length e1 = length e2 -> length e1 <> 0%nat ->
        exists semantic,
          MetricEvaluator.semantic_cosine_similarity E str1 str2 = Ok semantic
          /\ MetricEvaluator.evaluate E str1 str2
             = Ok (0.5 * 0 + 0.5 * semantic)%R)
  /\ (MetricEvaluator.tokens E str1 = [] -> MetricEvaluator.tokens E str2 = [] ->
      MetricEvaluator.evaluate E str1 str2 = Raise ValueError)
  /\ MetricEvaluator.lexical_cosine_similarity E (lit "") (lit "anything") = Ok 0%R.
Proof.
  split; [|split].
  - intros Hone Hnot.
    pose proof (lexical_one_side E str1 str2 Hone Hnot) as Hlex.
    split; [exact Hlex|].
    intros e1 e2 H1 H2 Hlen Hpos.
    assert (MetricEvaluator.semantic_cosine_similarity E str1 str2
            = Ok (MetricEvaluator.dot (MetricEvaluator.normalize e1)
                                      (MetricEvaluator.normalize e2))) as Hsem.
    { unfold MetricEvaluator.semantic_cosine_similarity,
        MetricEvaluator.get_embeddings. rewrite H1, H2. simpl.
      unfold MetricEvaluator.cosine_sim.
      rewrite Hlen, Nat.eqb_refl. simpl.
      destruct (Nat.eqb_spec (length e2) 0); [congruence|reflexivity]. }
    eexists. split; [exact Hsem|].
    unfold MetricEvaluator.evaluate. rewrite Hlex, Hsem. reflexivity.
  - intros H1 H2. unfold MetricEvaluator.evaluate.
    now rewrite (lexical_no_tokens E str1 str2 H1 H2).
  - apply lexical_one_side.
    + left. reflexivity.
    + intros [_ H]. vm_compute in H. discriminate.
Qed.

Lemma evaluate_without_tokens_witness :
  MetricEvaluator.lexical_cosine_similarity demo_env (lit "") (lit "anything")
    = Ok 0%R
  /\ exists semantic,
       MetricEvaluator.semantic_cosine_similarity demo_env (lit "") (lit "anything")
         = Ok semantic
       /\ MetricEvaluator.evaluate demo_env (lit "") (lit "anything")
          = Ok (0.5 * 0 + 0.5 * semantic)%R.
Proof.
  destruct (proj1 (evaluate_without_tokens demo_env (lit "") (lit "anything")))
    as [Hlex Hev].
  - left. reflexivity.
  - intros [_ H]. vm_compute in H. discriminate.
  - split; [exact Hlex|].
    apply (Hev [1%R] [1%R]); try reflexivity. discriminate.
Defined.

(** ** The fitted vocabulary *)

Section Vocabulary.
Import MetricEvaluator.

Lemma vocab_insert_elem (x t : str) (v : list str) :
  x ∈ vocab_insert t v -> x = t \/ x ∈ v.
Proof.
  induction v as [|u v IH]; simpl.
  - intros H. apply list_elem_of_singleton in H. now left.
  - destruct (str_compare t u).
    + now right.
    + intros H. apply elem_of_cons in H. tauto.
    + intros H. apply elem_of_cons in H. destruct H as [->|H].
      * right. apply elem_of_cons. now left.
      * destruct (IH H) as [->|H']; [now left|].
        right. apply elem_of_cons. now right.
Qed.

End Vocabulary.

(** ** Filtering by the relevance threshold *)

Section Filtering.
Import QAService.
Context (E : Env).

Lemma gtb_true (a b : R) : gtb a b = true <-> (a > b)%R.
Proof. unfold gtb. destruct (Rgt_dec a b); split; intros; auto; discriminate. Qed.

Lemma gtb_false (a b : R) : gtb a b = false <-> (a <= b)%R.
Proof.
  unfold gtb. destruct (Rgt_dec a b); split; intros; auto; try discriminate; lra.
Qed.

Lemma filter_loop_spec (t : R) (q : str) (docs : list Document) :
  forall kept res,
    filter_loop E t q kept docs = Ok res ->
    res = kept ++ List.filter (passes E t q) docs.
Proof.
  induction docs as [|d docs IH]; intros kept res H; simpl in H.
  - injection H as <-. simpl. now rewrite app_nil_r.
  - unfold passes at 1. simpl.
    destruct (MetricEvaluator.evaluate E q (page_content d)) as [score|e];
      simpl in H; [|discriminate].
    apply IH in H. destruct (gtb score t); [|exact H].
    now rewrite <- app_assoc in H.
Qed.

Lemma passes_strict (t : R) (q : str) (d : Document) :
  passes E t q d = true <->
  exists score, MetricEvaluator.evaluate E q (page_content d) = Ok score
                /\ (score > t)%R.
Proof.
  unfold passes. split.
  - destruct (MetricEvaluator.evaluate E q (page_content d)) as [score|e];
      [|discriminate].
    intros H. exists score. split; [reflexivity|]. now apply gtb_true.
  - intros (score & -> & H). now apply gtb_true.
Qed.

Lemma sublist_list_filter {A} (f : A -> bool) (l : list A) :
  sublist (List.filter f l) l.
Proof.
  induction l as [|x l IH]; simpl; [constructor|].
  destruct (f x); now constructor.
Qed.

Lemma on_cache_run {A} (m : M Retriever.t A) (s : t) r c :
  m (cache s) = (r, c) ->
  on_cache m s =
    (r, {| cache := c; retriever := retriever s; threshold := threshold s |}).
Proof. intros H. unfold on_cache. now rewrite H. Qed.

Lemma get_cached_answer_run (s : t) (q : str) (k : option Z) docs c :
  Retriever.get E q k (cache s) = (Ok docs, c) ->
  fst (get_cached_answer E q k s) =
    match docs with
    | [] => Ok (Some [])
    | _ :: _ =>
        match filter_based_on_metric E s q docs with
        | Ok [] => Ok None
        | Ok kept => Ok (Some (map (fun d => metadata_get d "answer") kept))
        | Raise e => Raise e
        end
    end.
Proof.
  intros H. unfold get_cached_answer, bind.
  rewrite (on_cache_run _ _ _ _ H).
  destruct docs as [|d docs]; [reflexivity|].
  unfold read, lift, filter_based_on_metric. cbn [threshold].
  generalize (filter_loop E (threshold s) q [] (d :: docs)).
  intros [[|d' kept]|e]; reflexivity.
Qed.
End Filtering.

(** C1. For every question and every list of candidates that the cache
    adapter returns, the answers that [get_cached_answer] returns (none when
    it returns [None]) are the [answer] metadata of exactly the candidates
    whose combined score is strictly above the threshold, in the order of
    the candidates: a candidate whose score equals the threshold is left
    out, and nothing is re-ordered after filtering. *)
Theorem get_cached_answer_strict_threshold
  (E : Env) (s : QAService.t) (q : str) (k : option Z)
  (docs : list Document) (c : Retriever.t) (r : option (list value)) :
  Retriever.get E q k (QAService.cache s) = (Ok docs, c) ->
  fst (QAService.get_cached_answer E q k s) = Ok r ->
  let kept := List.filter (QAService.passes E (QAService.threshold s) q) docs in
  default [] r = map (fun d => metadata_get d "answer") kept
  /\ sublist kept docs
  /\ (forall d, d ∈ kept ->
        exists score,
          MetricEvaluator.evaluate E q (page_content d) = Ok score
          /\ (score > QAService.threshold s)%R)
  /\ (forall d score,
        MetricEvaluator.evaluate E q (page_content d) = Ok score ->
        (score <= QAService.threshold s)%R -> d ∉ kept).
Proof.
  intros Hget Hrun kept.
  rewrite (get_cached_answer_run E s q k docs c Hget) in Hrun.
  repeat split.
  - destruct docs as [|d0 docs]; [injection Hrun as <-; reflexivity|].
    unfold QAService.filter_based_on_metric in Hrun.
    destruct (QAService.filter_loop E (QAService.threshold s) q [] (d0 :: docs))
      as [res|e] eqn:Hloop; [|discriminate].
    apply filter_loop_spec in Hloop. change (res = kept) in Hloop.
    clearbody kept. subst res.
    destruct kept; injection Hrun as <-; reflexivity.
  - apply sublist_list_filter.
  - intros d Hd. apply list_elem_of_In, filter_In in Hd.
    now apply passes_strict.
  - intros d score Hs Hle Hd. apply list_elem_of_In, filter_In in Hd.
    destruct Hd as [_ Hd]. apply passes_strict in Hd.
    destruct Hd as (score' & Hs' & Hgt). rewrite Hs in Hs'.
    injection Hs' as <-. lra.
Qed.

Section DemoFiltering.
Import QAService.

Lemma gtb_1_half : gtb 1 0.5 = true.
Proof. apply gtb_true. lra. Qed.

Lemma gtb_half_half : gtb 0.5 0.5 = false.
Proof. apply gtb_false. lra. Qed.

Lemma passes_demo_first : passes demo_env 0.5 (lit "ab") demo_first = true.
Proof.
  unfold passes. change (page_content demo_first) with (lit "ab").
  rewrite evaluate_demo_same. apply gtb_1_half.
Qed.

Lemma passes_demo_second : passes demo_env 0.5 (lit "ab") demo_second = false.
Proof.
  unfold passes. change (page_content demo_second) with (lit "cd").
  rewrite evaluate_demo_disjoint. apply gtb_half_half.
Qed.

Lemma filter_demo_docs (s : t) :
  threshold s = 0.5%R ->
  filter_based_on_metric demo_env s (lit "ab") demo_docs = Ok [demo_first].
Proof.
  intros Ht. unfold filter_based_on_metric, demo_docs. rewrite Ht.
  cbn [filter_loop].
  change (page_content demo_first) with (lit "ab").
  change (page_content demo_second) with (lit "cd").
  rewrite evaluate_demo_same. cbn [rbind].
  rewrite evaluate_demo_disjoint. cbn [rbind].
  now rewrite gtb_1_half, gtb_half_half.
Qed.

Lemma filter_demo_second (s : t) :
  threshold s = 0.5%R ->
  filter_based_on_metric demo_env s (lit "ab") [demo_second] = Ok [].
Proof.
  intros Ht. unfold filter_based_on_metric. rewrite Ht.
  cbn [filter_loop].
  change (page_content demo_second) with (lit "cd").
  rewrite evaluate_demo_disjoint. cbn [rbind].
  now rewrite gtb_half_half.
Qed.

Lemma get_demo (docs : list Document) (th : R) (q : str) :
  Retriever.get demo_env q None (cache (demo_service docs th)) =
    (Ok (take 5 docs), Retriever.log_get q None (demo_adapter docs 5)).
Proof. reflexivity. Qed.
End DemoFiltering.

Lemma get_cached_answer_strict_threshold_witness :
  let kept := List.filter (QAService.passes demo_env 0.5 (lit "ab")) demo_docs in
  default [] (Some [VStr (lit "first")]) = map (fun d => metadata_get d "answer") kept
  /\ sublist kept demo_docs
  /\ (forall d, d ∈ kept ->
        exists score,
          MetricEvaluator.evaluate demo_env (lit "ab") (page_content d) = Ok score
          /\ (score > 0.5)%R)
  /\ (forall d score,
        MetricEvaluator.evaluate demo_env (lit "ab") (page_content d) = Ok score ->
        (score <= 0.5)%R -> d ∉ kept).
Proof.
  apply (get_cached_answer_strict_threshold demo_env (demo_service demo_docs 0.5)
           (lit "ab") None demo_docs
           (Retriever.log_get (lit "ab") None (demo_adapter demo_docs 5))
           (Some [VStr (lit "first")])).
  - apply (get_demo demo_docs).
  - rewrite (get_cached_answer_run demo_env _ _ _ _ _ (get_demo demo_docs 0.5 (lit "ab"))).
    change (take 5 demo_docs) with demo_docs.
    rewrite filter_demo_docs by reflexivity. reflexivity.
Defined.

(** C8. For every question and every list of documents,
    [filter_based_on_metric] returns a subsequence of its input: the
    documents it returns are documents of the input, content and metadata as
    they were, in the order of the input; it selects and changes nothing. *)
Theorem filter_based_on_metric_selects
  (E : Env) (self : QAService.t) (q : str) (docs res : list Document) :
  QAService.filter_based_on_metric E self q docs = Ok res ->
  sublist res docs /\ (forall d, d ∈ res -> d ∈ docs).
Proof.
  intros H. unfold QAService.filter_based_on_metric in H.
  apply filter_loop_spec in H. rewrite app_nil_l in H. subst res.
  split.
  - apply sublist_list_filter.
  - intros d Hd. apply list_elem_of_In in Hd. apply filter_In in Hd.
    apply list_elem_of_In. tauto.
Qed.

Lemma filter_based_on_metric_selects_witness :
  sublist [demo_first] demo_docs /\ (forall d, d ∈ [demo_first] -> d ∈ demo_docs).
Proof.
  apply (filter_based_on_metric_selects demo_env (demo_service [] 0.5) (lit "ab")).
  apply filter_demo_docs. reflexivity.
Defined.

(** C10. The two "no match" outcomes of [get_cached_answer] are different
    values: when the cache query returns no document the result is the empty
    list, and when it returns candidates that the threshold all filters out
    the result is [None]. *)
Theorem get_cached_answer_no_match_values
  (E : Env) (s : QAService.t) (q : str) (k : option Z) :
  (forall c,
      Retriever.get E q k (QAService.cache s) = (Ok [], c) ->
      fst (QAService.get_cached_answer E q k s) = Ok (Some []))
  /\ (forall docs c,
      Retriever.get E q k (QAService.cache s) = (Ok docs, c) ->
      docs <> [] ->
      QAService.filter_based_on_metric E s q docs = Ok [] ->
      fst (QAService.get_cached_answer E q k s) = Ok None)
  /\ Some (@nil value) <> None.
Proof.
  split; [|split].
  - intros c H. now rewrite (get_cached_answer_run E s q k [] c H).
  - intros docs c H Hne Hf.
    rewrite (get_cached_answer_run E s q k docs c H).
    destruct docs as [|d docs]; [congruence|]. now rewrite Hf.
  - discriminate.
Qed.

Lemma get_cached_answer_no_match_values_witness :
  fst (QAService.get_cached_answer demo_env (lit "ab") None (demo_service [] 0.5))
    = Ok (Some [])
  /\ fst (QAService.get_cached_answer demo_env (lit "ab") None
            (demo_service [demo_second] 0.5)) = Ok None.
Proof.
  split.
  - apply (proj1 (get_cached_answer_no_match_values demo_env
                    (demo_service [] 0.5) (lit "ab") None)
             (Retriever.log_get (lit "ab") None (demo_adapter [] 5))).
    apply (get_demo [] 0.5).
  - apply (proj1 (proj2 (get_cached_answer_no_match_values demo_env
                    (demo_service [demo_second] 0.5) (lit "ab") None))
             [demo_second]
             (Retriever.log_get (lit "ab") None (demo_adapter [demo_second] 5))).
    + apply (get_demo [demo_second] 0.5).
    + discriminate.
    + apply filter_demo_second. reflexivity.
Defined.

(** ** The store adapter *)

Section RetrieverFacts.
Import Retriever.
Context (E : Env).

Lemma truthy_zero : truthy (Some 0) = None.
Proof. reflexivity. Qed.

Lemma truthy_nonzero (k : Z) : k <> 0 -> truthy (Some k) = Some k.
Proof. intros H. unfold truthy. destruct (Z.eqb_spec k 0); congruence. Qed.

(** Without a queryable view, [get] fails on the attribute access. *)
Lemma get_without_view (q : str) (k : option Z) (r : t) :
  retriever r = None -> fst (get E q k r) = Raise AttributeError.
Proof.
  intros H. unfold get, bind, update, read. simpl.
  destruct (truthy k); simpl; rewrite H; reflexivity.
Qed.

Lemma get_no_override (q : str) (k : option Z) (r : t) (v : view) :
  truthy k = None -> retriever r = Some v ->
  get E q k r = invoke E v q (log_get q k r).
Proof.
  intros Hk Hv. unfold get, bind, update, read, ret. simpl.
  rewrite Hk. simpl. now rewrite Hv.
Qed.

Lemma get_override (q : str) (k n : Z) (r : t) (v : view) :
  truthy (Some k) = Some n -> retriever r = Some v ->
  get E q (Some k) r =
    invoke E (set_k n v) q (set_retriever (Some (set_k n v)) (log_get q (Some k) r)).
Proof.
  intros Hk Hv. unfold get, bind, update, read, ret. cbn [fst snd].
  rewrite Hk. cbn [retriever log_get]. rewrite Hv. reflexivity.
Qed.

Lemma invoke_state (v : view) (q : str) (r : t) : snd (invoke E v q r) = r.
Proof.
  unfold invoke, bind, lift, read, ret, raise.
  destruct (embed_query E q); [|reflexivity].
  destruct (search_kwargs_k v <=? 0); [reflexivity|].
  destruct (index_refuses E (search_kwargs_k v)); reflexivity.
Qed.


Lemma invoke_result (v : view) (q : str) (r : t) (e : list R) :
  embed_query E q = Ok e -> 0 < search_kwargs_k v ->
  index_refuses E (search_kwargs_k v) = None ->
  fst (invoke E v q r) =
    Ok (take (Z.to_nat (search_kwargs_k v)) (rank E q (deref (view_store v) r))).
Proof.
  intros He Hk Hi. unfold invoke, bind, lift, read, ret, raise. rewrite He.
  destruct (Z.leb_spec (search_kwargs_k v) 0); [lia|]. now rewrite Hi.
Qed.

(** What [invoke] returns, when it returns. *)
Lemma invoke_returns (v : view) (q : str) (r : t) (docs : list Document) :
  fst (invoke E v q r) = Ok docs ->
  0 < search_kwargs_k v
  /\ docs = take (Z.to_nat (search_kwargs_k v))
                 (rank E q (deref (view_store v) r)).
Proof.
  unfold invoke, bind, lift, read, ret, raise.
  destruct (embed_query E q); [|discriminate].
  destruct (Z.leb_spec (search_kwargs_k v) 0); [discriminate|].
  destruct (index_refuses E (search_kwargs_k v)); [discriminate|].
  cbn [fst]. intros [= <-]. split; [assumption|reflexivity].
Qed.

Lemma embed_documents_one (x : str) (e : list R) :
  embed_query E x = Ok e -> embed_documents E [x] = Ok [e].
Proof. intros H. simpl. now rewrite H. Qed.

(** [set] on an adapter without a store: the new index becomes the
    store. *)
Lemma set_fresh (d : Document) (docs : list Document) (r : t) es :
  vectorstore r = None ->
  embed_documents E (map page_content (d :: docs)) = Ok es ->
  let ref := length (objects r) in
  set E (d :: docs) r =
    (Ok tt,
     {| persisted := Some (d :: docs); k_search := k_search r;
        objects := objects r ++ [d :: docs]; vectorstore := Some ref;
        retriever := Some (as_retriever ref (k_search r)); gets := gets r |}).
Proof.
  intros Hv He ref.
  cbv [set from_documents bind lift rbind]. rewrite He.
  cbv [read update save bind assign alloc]. rewrite Hv.
  unfold set_persisted, set_retriever, set_vectorstore, set_objects, deref.
  cbn [vectorstore objects persisted k_search retriever gets].
  now rewrite list_lookup_middle.
Qed.

(** [set] on an adapter that holds a store: once the new index is made,
    the call of [merge] raises; nothing has been assigned by then. *)
Lemma set_over_store (d : Document) (docs : list Document) (r : t) es (ref : nat) :
  vectorstore r = Some ref ->
  embed_documents E (map page_content (d :: docs)) = Ok es ->
  set E (d :: docs) r = (Raise AttributeError, r).
Proof.
  intros Hv He.
  cbv [set from_documents bind lift rbind]. rewrite He.
  cbv [read merge raise]. now rewrite Hv.
Qed.

(** [set] on an adapter that holds a store never returns, and assigns
    nothing. *)
Lemma set_over_store_raises (docs : list Document) (r : t) (ref : nat) :
  vectorstore r = Some ref ->
  snd (set E docs r) = r /\ exists e, fst (set E docs r) = Raise e.
Proof.
  intros Hv. cbv [set from_documents bind lift rbind].
  destruct (embed_documents E (map page_content docs)) as [es|e]; [|eauto].
  destruct docs as [|d docs]; [eauto|].
  cbv [read merge raise]. rewrite Hv. eauto.
Qed.
End RetrieverFacts.

(** ** The service built over an empty cache *)

Section EmptyCache.
Import QAService.
Context (E : Env).

Lemma on_retriever_cache {A} (m : M Retriever.t A) (s : t) :
  cache (snd (on_retriever m s)) = cache s.
Proof. unfold on_retriever. now destruct (m (retriever s)). Qed.

Lemma init_retriever_cache (files : list (str * result str)) (s : t) :
  cache (snd (init_retriever E files s)) = cache s.
Proof.
  unfold init_retriever, bind, read, lift, ret.
  pose proof (on_retriever_cache Retriever.load s) as H1.
  destruct (on_retriever Retriever.load s) as [[[]|e] s1]; simpl in *;
    [|exact H1].
  rewrite <- H1.
  destruct (Retriever.vectorstore (retriever s1)).
  - apply on_retriever_cache.
  - destruct (Reader.read_documents E files) as [documents|e]; [|reflexivity].
    pose proof (on_retriever_cache (Retriever.build E documents) s1) as H2.
    destruct (on_retriever (Retriever.build E documents) s1) as [[[]|e] s2];
      simpl in *; [|exact H2].
    rewrite <- H2. apply on_retriever_cache.
Qed.

Lemma init_cache_absent (s : t) :
  Retriever.persisted (cache s) = None ->
  Retriever.vectorstore (cache s) = None ->
  init_cache s = (Ok tt, s).
Proof.
  intros Hp Hv. destruct s as [c r th]. simpl in Hp, Hv.
  cbv [init_cache bind on_cache Retriever.load try_except
       Retriever.load_local read raise ret].
  cbn [cache]. rewrite Hp. simpl. rewrite Hv. reflexivity.
Qed.

(** A service whose cache index is not on disk has a cache adapter
    without store and without queryable view. *)
Lemma init_empty_cache (index_disk : option (list Document))
      (files : list (str * result str)) (k_search : Z) (th : R) (s : t) :
  init E None index_disk files k_search th = Ok s ->
  cache s = Retriever.init None k_search.
Proof.
  unfold init, bind. rewrite init_cache_absent by reflexivity.
  set (s0 := {| cache := Retriever.init None k_search;
                retriever := Retriever.init index_disk k_search;
                threshold := th |}).
  pose proof (init_retriever_cache files s0) as H.
  destruct (init_retriever E files s0) as [[[]|e] s1]; [|discriminate].
  intros [= <-]. exact H.
Qed.

Lemma get_cached_answer_without_view (s : t) (q : str) (k : option Z) :
  Retriever.retriever (cache s) = None ->
  fst (get_cached_answer E q k s) = Raise AttributeError.
Proof.
  intros H. unfold get_cached_answer, bind, on_cache.
  pose proof (get_without_view E q k (cache s) H) as Hg.
  destruct (Retriever.get E q k (cache s)) as [r c]. simpl in Hg.
  now rewrite Hg.
Qed.
End EmptyCache.

(** C3. A service started without a persisted cache index (its [load]
    found nothing) has no queryable view on the cache, and
    [get_cached_answer] raises [AttributeError] for every question and
    every [k]: it does not return a "no match" value. *)
Theorem get_cached_answer_empty_cache_raises
  (E : Env) (index_disk : option (list Document))
  (files : list (str * result str)) (k_search : Z) (th : R)
  (s : QAService.t) (q : str) (k : option Z) :
  QAService.init E None index_disk files k_search th = Ok s ->
  fst (QAService.get_cached_answer E q k s) = Raise AttributeError.
Proof.
  intros H. apply get_cached_answer_without_view.
  now rewrite (init_empty_cache E _ _ _ _ _ H).
Qed.

Lemma get_cached_answer_empty_cache_raises_witness :
  fst (QAService.get_cached_answer demo_env (lit "ab") (Some 1) demo_cold_start)
    = Raise AttributeError.
Proof.
  apply (get_cached_answer_empty_cache_raises demo_env (Some demo_docs) [] 5 0.5).
  reflexivity.
Defined.

(** ** The result count of [Retriever.get] *)

Section ResultCount.
Import Retriever.
Context (E : Env).

Lemma setup_over_store (r : t) (ref : nat) :
  vectorstore r = Some ref ->
  setup r = (Ok tt, set_retriever (Some (as_retriever ref (k_search r))) r).
Proof. intros Hv. cbv [setup bind read update]. now rewrite Hv. Qed.

Lemma get_no_override_returns (q : str) (k : option Z) (r : t) (v : view)
      (docs : list Document) :
  truthy k = None -> retriever r = Some v ->
  fst (get E q k r) = Ok docs ->
  docs = take (Z.to_nat (search_kwargs_k v)) (rank E q (deref (view_store v) r)).
Proof.
  intros Hk Hv. rewrite (get_no_override E q k r v Hk Hv).
  intros H. now apply invoke_returns in H.
Qed.
End ResultCount.

(** C9 as stated fails: on an adapter configured with [k_search = 5] and
    holding two documents, [get(q, 1)] returns one document, and after a
    call of [setup] the call [get(q)] returns the two documents of the
    store, not one. *)
Lemma get_override_reset_by_setup :
  fst (Retriever.get demo_env (lit "ab") (Some 1) (demo_adapter demo_docs 5))
    = Ok [demo_first]
  /\ fst (demo_get_setup_get (demo_adapter demo_docs 5))
    = Ok [demo_first; demo_second]
  /\ length [demo_first; demo_second] <> 1%nat.
Proof. split; [reflexivity|split; [reflexivity|discriminate]]. Qed.

(** C9, amended. [get] with a truthy [k] overwrites the result count of
    the adapter's queryable view, whether the search then returns or
    raises, and leaves [k_search] as configured; [get] without [k], or with
    [k = 0], overwrites nothing, and what it returns, when the search
    returns, are the first documents of the store's ranking up to the
    view's current count, so the override lasts over the following calls
    of [get].  It ends when [setup] rebuilds the view, which starts again
    from [k_search]; a write with [set] on an adapter that holds a store
    raises before it rebuilds the view and leaves the override in place. *)
Theorem get_override_until_rebuilt
  (E : Env) (r : Retriever.t) (v : Retriever.view) (q : str) :
  Retriever.retriever r = Some v ->
  (forall k, k <> 0 ->
     let r1 := snd (Retriever.get E q (Some k) r) in
     Retriever.retriever r1 = Some (Retriever.set_k k v)
     /\ Retriever.k_search r1 = Retriever.k_search r)
  /\ (forall k, k = None \/ k = Some 0 ->
        Retriever.retriever (snd (Retriever.get E q k r)) = Some v
        /\ (forall docs,
              fst (Retriever.get E q k r) = Ok docs ->
              docs = take (Z.to_nat (Retriever.search_kwargs_k v))
                          (rank E q (Retriever.deref (Retriever.view_store v) r))
              /\ (length docs <= Z.to_nat (Retriever.search_kwargs_k v))%nat)
        /\ (forall e, embed_query E q = Ok e ->
              0 < Retriever.search_kwargs_k v ->
              index_refuses E (Retriever.search_kwargs_k v) = None ->
              exists docs, fst (Retriever.get E q k r) = Ok docs))
  /\ (forall docs ref,
        Retriever.vectorstore r = Some ref ->
        snd (Retriever.set E docs r) = r
        /\ exists e, fst (Retriever.set E docs r) = Raise e)
  /\ (forall ref,
        Retriever.vectorstore r = Some ref ->
        exists r',
          Retriever.setup r = (Ok tt, r')
          /\ Retriever.retriever r' =
               Some (Retriever.as_retriever ref (Retriever.k_search r))
          /\ Retriever.k_search r' = Retriever.k_search r).
Proof.
  intros Hv. split; [|split; [|split]].
  - intros k Hk r1. subst r1.
    rewrite (get_override E q k k r v (truthy_nonzero k Hk) Hv).
    rewrite invoke_state. split; reflexivity.
  - intros k Hk.
    assert (Retriever.truthy k = None) as Ht by (destruct Hk; subst; reflexivity).
    split; [|split].
    + rewrite (get_no_override E q k r v Ht Hv).
      rewrite invoke_state. exact Hv.
    + intros docs Hd.
      apply (get_no_override_returns E q k r v docs Ht Hv) in Hd.
      split; [exact Hd|]. subst docs. rewrite length_take. lia.
    + intros e He Hpos Hi.
      rewrite (get_no_override E q k r v Ht Hv).
      rewrite (invoke_result E v q _ e He Hpos Hi). eauto.
  - intros docs ref Hs. exact (set_over_store_raises E docs r ref Hs).
  - intros ref Hs. rewrite (setup_over_store r ref Hs).
    eexists. split; [reflexivity|]. split; reflexivity.
Qed.

Lemma get_override_until_rebuilt_witness :
  (Retriever.retriever
     (snd (Retriever.get demo_env (lit "ab") (Some 1) (demo_adapter demo_docs 5)))
     = Some (Retriever.as_retriever 0 1)
   /\ Retriever.k_search
        (snd (Retriever.get demo_env (lit "ab") (Some 1) (demo_adapter demo_docs 5)))
      = 5)
  /\ (snd (Retriever.set demo_env [demo_third] (demo_adapter demo_docs 5))
        = demo_adapter demo_docs 5
      /\ exists e,
           fst (Retriever.set demo_env [demo_third] (demo_adapter demo_docs 5))
             = Raise e).
Proof.
  pose proof (get_override_until_rebuilt demo_env (demo_adapter demo_docs 5)
                (Retriever.as_retriever 0 5) (lit "ab") eq_refl)
    as (H1 & _ & H3 & _).
  split.
  - apply (H1 1). discriminate.
  - apply (H3 [demo_third] 0%nat). reflexivity.
Defined.

(** ** Writing the same pair to the cache twice *)

Lemma bind_ok {S A B} (m : M S A) (k : A -> M S B) (s s' : S) (a : A) :
  m s = (Ok a, s') -> bind m k s = k a s'.
Proof. intros H. unfold bind. now rewrite H. Qed.

Lemma bind_raise {S A B} (m : M S A) (k : A -> M S B) (s s' : S) (e : exn) :
  m s = (Raise e, s') -> bind m k s = (Raise e, s').
Proof. intros H. unfold bind. now rewrite H. Qed.

Section CacheWrites.
Import QAService.
Context (E : Env).

Lemma set_cache_run (q a : str) (s : t) (c : Retriever.t) :
  Retriever.set E [cache_document q a] (cache s) = (Ok tt, c) ->
  set_cache E [(q, a)] s =
    (Ok tt, {| cache := c; retriever := retriever s; threshold := threshold s |}).
Proof. intros H. unfold set_cache. simpl. now apply on_cache_run. Qed.

Lemma on_cache_same {A} (m : M Retriever.t A) (s : t) (r : result A) :
  m (cache s) = (r, cache s) -> on_cache m s = (r, s).
Proof. intros H. rewrite (on_cache_run m s r (cache s) H). now destruct s. Qed.

Lemma permutation_one {A} (x : A) (l : list A) :
  Permutation l [x] -> l = [x].
Proof. intros H. symmetry in H. now apply Permutation_length_1_inv in H. Qed.

Lemma filter_one (self : t) (q a : str) (score : R) :
  MetricEvaluator.evaluate E q q = Ok score ->
  (score > threshold self)%R ->
  filter_based_on_metric E self q [cache_document q a] = Ok [cache_document q a].
Proof.
  intros Hs Hgt. unfold filter_based_on_metric. cbn [filter_loop].
  change (page_content (cache_document q a)) with q.
  rewrite Hs. cbn [rbind].
  apply gtb_true in Hgt. now rewrite Hgt.
Qed.
End CacheWrites.

(** C7. On a service whose cache holds no index, and for a question [q]
    that has an embedding, [set_cache({q: a})] succeeds the first time and
    raises [AttributeError] the second time: the index object that
    [routes.py] hands to the service has no method [merge].  The second
    write assigns nothing, so the cache and the saved index hold the
    document of the pair once, the sequence of the two writes and
    [get_cached_answer(q)] raises, and [get_cached_answer(q)] after the
    failed write returns [a] once where the index ranks what it holds and
    the score of [q] against itself is above the threshold. *)
Theorem set_cache_twice_second_write_raises
  (E : Env) (s : QAService.t) (q a : str) (e : list R) :
  embed_query E q = Ok e ->
  Retriever.vectorstore (QAService.cache s) = None ->
  let d := QAService.cache_document q a in
  let s1 := snd (QAService.set_cache E [(q, a)] s) in
  fst (QAService.set_cache E [(q, a)] s) = Ok tt
  /\ QAService.set_cache E [(q, a)] s1 = (Raise AttributeError, s1)
  /\ fst ((QAService.set_cache E [(q, a)] ;;;
           QAService.set_cache E [(q, a)] ;;;
           QAService.get_cached_answer E q None) s) = Raise AttributeError
  /\ Retriever.persisted (QAService.cache s1) = Some [d]
  /\ (exists ref,
        Retriever.vectorstore (QAService.cache s1) = Some ref
        /\ Retriever.deref ref (QAService.cache s1) = [d])
  /\ (forall score,
        MetricEvaluator.evaluate E q q = Ok score ->
        (score > QAService.threshold s)%R ->
        0 < Retriever.k_search (QAService.cache s) ->
        index_refuses E (Retriever.k_search (QAService.cache s)) = None ->
        (forall l, Permutation (rank E q l) l) ->
        fst (QAService.get_cached_answer E q None s1) = Ok (Some [VStr a])).
Proof.
  intros He Hv d s1.
  pose proof (embed_documents_one E q e He) as Hed.
  pose proof (set_fresh E d [] (QAService.cache s) [e] Hv Hed) as H1.
  cbv zeta in H1. apply set_cache_run in H1.
  set (n := length (Retriever.objects (QAService.cache s))) in *.
  assert (QAService.set_cache E [(q, a)] s1 = (Raise AttributeError, s1)) as H2.
  { unfold s1. rewrite H1. cbn [snd].
    unfold QAService.set_cache. cbn [map fst snd].
    apply on_cache_same. cbn [QAService.cache].
    apply (set_over_store E d [] _ [e] n); [reflexivity|exact Hed]. }
  split; [now rewrite H1|]. split; [exact H2|]. split.
  { rewrite (bind_ok _ _ _ _ _ H1).
    fold s1 in H2. unfold s1 in H2. rewrite H1 in H2. cbn [snd] in H2.
    now rewrite (bind_raise _ _ _ _ _ H2). }
  unfold s1. rewrite H1. cbn [snd QAService.cache Retriever.persisted].
  split; [reflexivity|]. split.
  { exists n. split; [reflexivity|].
    unfold Retriever.deref. cbn [Retriever.objects Retriever.vectorstore].
    now rewrite list_lookup_middle. }
  intros score Hs Hgt Hk Hi Hrank.
  match goal with |- fst (_ _ _ _ ?st) = _ => set (s2 := st) end.
  set (v := Retriever.as_retriever n (Retriever.k_search (QAService.cache s))).
  assert (Retriever.get E q None (QAService.cache s2) =
            (Ok [d], Retriever.log_get q None (QAService.cache s2))) as H3.
  { rewrite (get_no_override E q None (QAService.cache s2) v eq_refl eq_refl).
    rewrite (surjective_pairing (Retriever.invoke E v q _)).
    rewrite invoke_state, (invoke_result E v q _ e He) by assumption.
    f_equal. f_equal.
    assert (Retriever.deref (Retriever.view_store v)
              (Retriever.log_get q None (QAService.cache s2)) = [d]) as ->.
    { unfold Retriever.deref. simpl. now rewrite list_lookup_middle. }
    rewrite (permutation_one d _ (Hrank [d])).
    apply take_ge. simpl. simpl in Hk. lia. }
  rewrite (get_cached_answer_run E s2 q None _ _ H3). unfold d.
  rewrite (filter_one E s2 q a score Hs Hgt). reflexivity.
Qed.

Lemma set_cache_twice_second_write_raises_witness :
  let s1 := snd (QAService.set_cache demo_env [(lit "ab", lit "first")]
                   demo_cold_start) in
  fst (QAService.set_cache demo_env [(lit "ab", lit "first")] demo_cold_start)
    = Ok tt
  /\ QAService.set_cache demo_env [(lit "ab", lit "first")] s1
     = (Raise AttributeError, s1)
  /\ Retriever.persisted (QAService.cache s1) = Some [demo_first]
  /\ fst (QAService.get_cached_answer demo_env (lit "ab") None s1)
     = Ok (Some [VStr (lit "first")]).
Proof.
  pose proof (set_cache_twice_second_write_raises demo_env demo_cold_start
                (lit "ab") (lit "first") [1%R] eq_refl eq_refl)
    as (H1 & H2 & _ & H4 & _ & H6).
  split; [exact H1|]. split; [exact H2|]. split; [exact H4|].
  apply (H6 1%R evaluate_demo_same).
  - simpl. lra.
  - simpl. lia.
  - reflexivity.
  - intros l. apply Permutation_refl.
Defined.

(** ** Stripping a set of characters *)

Section Strip.
Context (f : char -> bool).

Lemma lstrip_by_spec (s : str) :
  exists pre,
    s = pre ++ lstrip_by f s
    /\ Forall (fun c => f c = true) pre
    /\ (forall c r', lstrip_by f s = c :: r' -> f c = false).
Proof.
  induction s as [|c s (pre & Hs & Hpre & Hhead)]; simpl.
  - exists []. repeat split; [constructor|discriminate].
  - destruct (f c) eqn:Hc.
    + exists (c :: pre). repeat split.
      * simpl. now f_equal.
      * now constructor.
      * exact Hhead.
    + exists []. repeat split; [constructor|].
      intros c' r' [= <- _]. exact Hc.
Qed.

Lemma rstrip_by_spec (s : str) :
  exists suf,
    s = rstrip_by f s ++ suf
    /\ Forall (fun c => f c = true) suf
    /\ (forall r' c, rstrip_by f s = r' ++ [c] -> f c = false).
Proof.
  unfold rstrip_by.
  destruct (lstrip_by_spec (rev s)) as (pre & Hs & Hpre & Hhead).
  exists (rev pre). repeat split.
  - rewrite <- rev_app_distr, <- Hs. now rewrite rev_involutive.
  - apply Forall_forall. intros c Hc. rewrite Forall_forall in Hpre.
    apply Hpre. apply list_elem_of_In. apply list_elem_of_In in Hc.
    now apply in_rev.
  - intros r' c Hr. apply (Hhead c (rev r')).
    rewrite <- (rev_involutive (lstrip_by f (rev s))), Hr.
    now rewrite rev_app_distr.
Qed.

Lemma rstrip_by_head (s : str) (c : char) (r' : str) :
  rstrip_by f s = c :: r' -> exists s', s = c :: s'.
Proof.
  destruct (rstrip_by_spec s) as (suf & Hs & _). intros Hr.
  rewrite Hr in Hs. simpl in Hs. eauto.
Qed.
End Strip.

Lemma mem_char_elem_of (c : char) (cs : str) : mem_char c cs = true <-> c ∈ cs.
Proof.
  unfold mem_char. rewrite existsb_exists. split.
  - intros (x & Hin & Heq). apply N.eqb_eq in Heq. subst x.
    now apply list_elem_of_In.
  - intros H. exists c. split; [now apply list_elem_of_In|apply N.eqb_refl].
Qed.

(** [s.strip(chars)] takes from both ends of [s] the longest runs of
    characters of [chars]. *)
Lemma strip_chars_spec (chars s : str) :
  exists pre suf,
    s = pre ++ strip_chars chars s ++ suf
    /\ Forall (fun c => c ∈ chars) pre
    /\ Forall (fun c => c ∈ chars) suf
    /\ (forall c r', strip_chars chars s = c :: r' -> c ∉ chars)
    /\ (forall r' c, strip_chars chars s = r' ++ [c] -> c ∉ chars).
Proof.
  unfold strip_chars. set (f := fun c => mem_char c chars).
  destruct (lstrip_by_spec f s) as (pre & Hs & Hpre & Hhead).
  destruct (rstrip_by_spec f (lstrip_by f s)) as (suf & Hl & Hsuf & Hlast).
  exists pre, suf. repeat split.
  - now rewrite <- Hl.
  - eapply Forall_impl; [exact Hpre|]. intros c. apply mem_char_elem_of.
  - eapply Forall_impl; [exact Hsuf|]. intros c. apply mem_char_elem_of.
  - intros c r' Hr Hin.
    destruct (rstrip_by_head f _ _ _ Hr) as [s' Hs'].
    apply mem_char_elem_of in Hin. fold (f c) in Hin.
    rewrite (Hhead c s' Hs') in Hin. discriminate.
  - intros r' c Hr Hin. apply mem_char_elem_of in Hin. fold (f c) in Hin.
    rewrite (Hlast r' c Hr) in Hin. discriminate.
Qed.

(** ** The generation path *)

Section Generation.
Import QAService.
Context (E : Env).


End Generation.





(** C6. [get_llm_answer] returns the accumulated result with the longest
    run of characters of ['Ответ:'] taken from each end: what is removed
    are characters of the set, in any order and number, and the characters
    at the two ends of what is returned are not of the set.  The characters
    of the answer itself that are of the set are removed with the label. *)
Theorem get_llm_answer_strips_label_characters
  (E : Env) (s s1 : QAService.t) (q ctx system user : str)
  (chunks : list (option str)) :
  QAService.llm_context E q s = (Ok ctx, s1) ->
  prompt_format E "system" ctx = Ok system ->
  prompt_format E "user" q = Ok user ->
  llm_stream E [SystemMessage system; HumanMessage user] = Ok chunks ->
  let result := QAService.accumulate chunks in
  exists answer pre suf,
    fst (QAService.get_llm_answer E q s) = Ok answer
    /\ answer = strip_chars Otvet result
    /\ result = pre ++ answer ++ suf
    /\ Forall (fun c => c ∈ Otvet) pre
    /\ Forall (fun c => c ∈ Otvet) suf
    /\ (forall c r', answer = c :: r' -> c ∉ Otvet)
    /\ (forall r' c, answer = r' ++ [c] -> c ∉ Otvet).
Proof.
  intros Hc Hs Hu Hl result.
  destruct (strip_chars_spec Otvet result) as (pre & suf & H1 & H2 & H3 & H4 & H5).
  exists (strip_chars Otvet result), pre, suf.
  repeat split; try assumption.
  unfold QAService.get_llm_answer. rewrite (bind_ok _ _ _ _ _ Hc).
  unfold bind, lift, ret. rewrite Hs, Hu, Hl. reflexivity.
Qed.

Lemma get_llm_answer_strips_label_characters_witness :
  exists answer pre suf,
    fst (QAService.get_llm_answer demo_env demo_yes demo_cold_start) = Ok answer
    /\ answer = strip_chars Otvet (QAService.accumulate [Some []; Some demo_yes])
    /\ QAService.accumulate [Some []; Some demo_yes] = pre ++ answer ++ suf
    /\ Forall (fun c => c ∈ Otvet) pre
    /\ Forall (fun c => c ∈ Otvet) suf
    /\ (forall c r', answer = c :: r' -> c ∉ Otvet)
    /\ (forall r' c, answer = r' ++ [c] -> c ∉ Otvet).
Proof.
  apply (get_llm_answer_strips_label_characters demo_env demo_cold_start
           demo_cold_start demo_yes [] [] demo_yes [Some []; Some demo_yes]);
    reflexivity.
Defined.

(** The answer ['Да, Привет'] loses its last three letters to the strip. *)
Example strip_label_over_trims :
  strip_chars Otvet demo_yes = [0x414%N; cyr_a] ++ lit ", " ++ [0x41F; 0x440; 0x438]%N.
Proof. reflexivity. Qed.

(** ** Reading the metadata block *)

Section MetadataDates.
Context (E : Env).

(** The date format of [extract_metadata] reads a day, a month and a
    year. *)
Lemma strptime_dmY_full_date :
  Reader.strptime_dmY E (lit "15-03-2024") = Ok (VDate 2024 3 15).
Proof. vm_compute. reflexivity. Qed.

Lemma strptime_dmY_rejects :
  Reader.strptime_dmY E (lit "99-99-9999") = Raise ValueError
  /\ Reader.strptime_dmY E (lit "29-02-2023") = Raise ValueError
  /\ Reader.strptime_dmY E (lit "03-2024") = Raise ValueError.
Proof. repeat split; vm_compute; reflexivity. Qed.

(** The pattern of [extract_metadata] reads two digits, a dash and four
    digits: with such a date the block is found, and the date is null. *)
Lemma extract_metadata_two_part_date :
  Reader.extract_metadata E
    (with_metadata_block "Body text" "https://x.test/a" "03-2024")
  = Ok (lit "Body text",
        <["link" := VStr (lit "https://x.test/a")]> (<["date" := VNone]> ∅)).
Proof. vm_compute. reflexivity. Qed.
End MetadataDates.

(** C2 on the code.  For the text of the claim, a metadata block with link
    [https://x.test/a] and date [15-03-2024], [extract_metadata] does not
    find the block: it returns the text as it is and no metadata, neither
    the clean text nor the link and the date 2024-03-15.  With the date
    [99-99-9999] it returns the same, without the link. *)
Theorem extract_metadata_full_date_not_found (E : Env) :
  let text := with_metadata_block "Body text" "https://x.test/a" "15-03-2024" in
  let malformed := with_metadata_block "Body text" "https://x.test/a" "99-99-9999" in
  Reader.extract_metadata E text = Ok (text, ∅)
  /\ Reader.extract_metadata E text
     <> Ok (lit "Body text",
            <["link" := VStr (lit "https://x.test/a")]>
              (<["date" := VDate 2024 3 15]> ∅))
  /\ Reader.extract_metadata E malformed = Ok (malformed, ∅)
  /\ Reader.extract_metadata E malformed
     <> Ok (lit "Body text",
            <["link" := VStr (lit "https://x.test/a")]> (<["date" := VNone]> ∅)).
Proof.
  intros text malformed.
  assert (Reader.extract_metadata E text = Ok (text, ∅)) as H1
    by (vm_compute; reflexivity).
  assert (Reader.extract_metadata E malformed = Ok (malformed, ∅)) as H2
    by (vm_compute; reflexivity).
  repeat split; try assumption.
  - rewrite H1. intros H. vm_compute in H. discriminate.
  - rewrite H2. intros H. vm_compute in H. discriminate.
Qed.

(** * Further properties of the code *)

(** ** Retriever: what [get], [build] and [set] do to the adapter *)

Section AdapterProperties.
Import Retriever.
Context (E : Env).

Lemma get_result (q : str) (k : option Z) (r : t) :
  fst (get E q k r) =
    match retriever r with
    | None => Raise AttributeError
    | Some v =>
        let v' := match truthy k with Some n => set_k n v | None => v end in
        _ <-- embed_query E q ;;
        if search_kwargs_k v' <=? 0 then Raise AssertionError
        else
          match index_refuses E (search_kwargs_k v') with
          | Some e => Raise e
          | None => Ok (take (Z.to_nat (search_kwargs_k v'))
                             (rank E q (deref (view_store v') r)))
          end
    end.
Proof.
  cbv [get bind update read ret raise].
  destruct (truthy k) as [n|]; cbn [retriever log_get];
    destruct (retriever r) as [v|]; try reflexivity;
    cbn [retriever set_retriever];
    cbv [invoke bind lift read ret raise];
    destruct (embed_query E q); try reflexivity;
    cbn [rbind]; destruct (_ <=? 0); try reflexivity;
    destruct (index_refuses E _); reflexivity.
Qed.

Lemma get_state (q : str) (k : option Z) (r : t) :
  snd (get E q k r) =
    match retriever r, truthy k with
    | Some v, Some n => set_retriever (Some (set_k n v)) (log_get q k r)
    | _, _ => log_get q k r
    end.
Proof.
  cbv [get bind update read ret raise].
  destruct (truthy k) as [n|]; cbn [retriever log_get];
    destruct (retriever r) as [v|]; try reflexivity;
    cbn [retriever set_retriever]; now rewrite invoke_state.
Qed.
End AdapterProperties.

(** X1. What [get] returns: at most as many documents as the result count
    in force (the truthy [k] of the call, else the count of the view), each
    of them a document of the store the view searches; the count is
    positive, a count of zero or less makes the index raise. *)
Theorem get_returns_at_most_k_stored_documents
  (E : Env) (r r' : Retriever.t) (q : str) (k : option Z)
  (docs : list Document) :
  (forall l, Permutation (rank E q l) l) ->
  Retriever.get E q k r = (Ok docs, r') ->
  exists v,
    Retriever.retriever r' = Some v
    /\ 0 < Retriever.search_kwargs_k v
    /\ (forall n, Retriever.truthy k = Some n -> Retriever.search_kwargs_k v = n)
    /\ (length docs <= Z.to_nat (Retriever.search_kwargs_k v))%nat
    /\ (length docs <= length (Retriever.deref (Retriever.view_store v) r'))%nat
    /\ forall d, d ∈ docs -> d ∈ Retriever.deref (Retriever.view_store v) r'.
Proof.
  intros Hrank H.
  pose proof (get_result E q k r) as Hres.
  pose proof (get_state E q k r) as Hst.
  rewrite H in Hres, Hst. simpl in Hres, Hst.
  destruct (Retriever.retriever r) as [v|] eqn:Hv; [|discriminate].
  set (v' := match Retriever.truthy k with
             | Some n => Retriever.set_k n v | None => v end) in *.
  cbn zeta in Hres.
  destruct (embed_query E q); [|discriminate]. cbn [rbind] in Hres.
  destruct (Z.leb_spec (Retriever.search_kwargs_k v') 0) as [|Hpos];
    [discriminate|].
  destruct (index_refuses E (Retriever.search_kwargs_k v')); [discriminate|].
  injection Hres as Hdocs.
  assert (Retriever.retriever r' = Some v'
          /\ Retriever.deref (Retriever.view_store v') r'
             = Retriever.deref (Retriever.view_store v') r) as [Hv' Hd].
  { subst r' v'. destruct (Retriever.truthy k); split; try reflexivity.
    simpl. exact Hv. }
  exists v'. rewrite Hd. split; [exact Hv'|]. split; [exact Hpos|].
  split; [|split; [|split]].
  - intros n Hn. subst v'. rewrite Hn. reflexivity.
  - rewrite Hdocs, length_take. lia.
  - rewrite Hdocs, length_take.
    rewrite (Permutation_length (Hrank _)). lia.
  - intros d Hd'. rewrite Hdocs in Hd'.
    apply subseteq_take in Hd'.
    now rewrite (Hrank _) in Hd'.
Qed.

Lemma get_returns_at_most_k_stored_documents_witness :
  let r' := Retriever.set_retriever (Some (Retriever.as_retriever 0 1))
              (Retriever.log_get (lit "ab") (Some 1) (demo_adapter demo_docs 5)) in
  exists v,
    Retriever.retriever r' = Some v
    /\ 0 < Retriever.search_kwargs_k v
    /\ (forall n, Retriever.truthy (Some 1) = Some n -> Retriever.search_kwargs_k v = n)
    /\ (length [demo_first] <= Z.to_nat (Retriever.search_kwargs_k v))%nat
    /\ (length [demo_first] <= length (Retriever.deref (Retriever.view_store v) r'))%nat
    /\ forall d, d ∈ [demo_first] -> d ∈ Retriever.deref (Retriever.view_store v) r'.
Proof.
  apply (get_returns_at_most_k_stored_documents demo_env
           (demo_adapter demo_docs 5) _ (lit "ab") (Some 1) [demo_first]
           (fun l => Permutation_refl l)).
  reflexivity.
Defined.

(** ** Retriever: [build] and the view, failed writes, the saved index *)

Section AdapterWrites.
Import Retriever.
Context (E : Env).

(** What [from_documents] does when it succeeds. *)
Lemma from_documents_ok (docs store : list Document) :
  from_documents E docs = Ok store -> docs <> [] /\ store = docs.
Proof.
  cbv [from_documents rbind].
  destruct (embed_documents E (map page_content docs)); [|discriminate].
  destruct docs as [|d docs]; [discriminate|].
  intros [= <-]. split; [discriminate|reflexivity].
Qed.

Lemma build_ok (docs : list Document) (r r' : t) :
  build E docs r = (Ok tt, r') ->
  docs <> []
  /\ r' = set_persisted (Some docs)
            (set_vectorstore (Some (length (objects r)))
               (set_objects (objects r ++ [docs]) r)).
Proof.
  unfold build. cbv [bind lift].
  destruct (from_documents E docs) as [store|e] eqn:Hf; [|discriminate].
  apply from_documents_ok in Hf. destruct Hf as (Hne & ->).
  cbv [assign alloc bind update save read raise].
  unfold set_persisted, set_vectorstore, set_objects, deref.
  cbn [vectorstore objects persisted k_search retriever gets].
  rewrite list_lookup_middle by reflexivity.
  intros [= <-]. split; [exact Hne|reflexivity].
Qed.

Lemma build_raise (docs : list Document) (r r' : t) (e : exn) :
  build E docs r = (Raise e, r') -> r' = r.
Proof.
  unfold build. cbv [bind lift].
  destruct (from_documents E docs) as [store|e'] eqn:Hf.
  - cbv [assign alloc bind update save read raise].
    unfold set_vectorstore, set_objects. cbn [vectorstore]. discriminate.
  - now intros [= _ <-].
Qed.

Lemma set_raise (docs : list Document) (r r' : t) (e : exn) :
  set E docs r = (Raise e, r') -> r' = r.
Proof.
  unfold set. cbv [bind lift].
  destruct (from_documents E docs) as [store|e'] eqn:Hf.
  - cbv [read merge raise].
    destruct (vectorstore r) eqn:Hv.
    + now intros [= _ <-].
    + cbv [assign alloc bind update save read raise].
      unfold set_vectorstore, set_objects. cbn [vectorstore]. discriminate.
  - now intros [= _ <-].
Qed.
End AdapterWrites.

(** X2. [build] makes a new store and saves it, and leaves the queryable
    view alone: an adapter that was set up keeps a view on the store it had
    before, and until [setup] is called again every [get] answers as before
    the build, from the old documents. *)
Theorem build_leaves_the_view_on_the_old_store
  (E : Env) (docs : list Document) (r r' : Retriever.t) (v : Retriever.view) :
  Retriever.retriever r = Some v ->
  (Retriever.view_store v < length (Retriever.objects r))%nat ->
  Retriever.build E docs r = (Ok tt, r') ->
  Retriever.retriever r' = Some v
  /\ (exists ref, Retriever.vectorstore r' = Some ref
                  /\ ref <> Retriever.view_store v
                  /\ Retriever.deref ref r' = docs)
  /\ Retriever.persisted r' = Some docs
  /\ Retriever.deref (Retriever.view_store v) r'
     = Retriever.deref (Retriever.view_store v) r
  /\ forall q k, fst (Retriever.get E q k r') = fst (Retriever.get E q k r).
Proof.
  intros Hv Hlt Hb. apply build_ok in Hb. destruct Hb as [Hne ->].
  assert (Retriever.deref (Retriever.view_store v)
            (Retriever.set_persisted (Some docs)
               (Retriever.set_vectorstore (Some (length (Retriever.objects r)))
                  (Retriever.set_objects (Retriever.objects r ++ [docs]) r)))
          = Retriever.deref (Retriever.view_store v) r) as Hd.
  { unfold Retriever.deref. simpl. now rewrite lookup_app_l. }
  split; [exact Hv|]. split; [|split; [reflexivity|split; [exact Hd|]]].
  - exists (length (Retriever.objects r)). split; [reflexivity|]. split; [lia|].
    unfold Retriever.deref. simpl. now rewrite list_lookup_middle.
  - intros q k. rewrite !get_result. cbn [Retriever.retriever
      Retriever.set_persisted Retriever.set_vectorstore Retriever.set_objects].
    rewrite Hv. cbn zeta.
    destruct (Retriever.truthy k) as [n|]; cbn [Retriever.view_store Retriever.set_k];
      now rewrite Hd.
Qed.

Lemma build_leaves_the_view_on_the_old_store_witness :
  fst (Retriever.get demo_env (lit "ab") None
         (snd (Retriever.build demo_env [demo_third] (demo_adapter demo_docs 5))))
  = fst (Retriever.get demo_env (lit "ab") None (demo_adapter demo_docs 5)).
Proof.
  apply (build_leaves_the_view_on_the_old_store demo_env [demo_third]
           (demo_adapter demo_docs 5) _ (Retriever.as_retriever 0 5) eq_refl).
  - simpl. lia.
  - reflexivity.
Defined.

(** X3. A write that raises has written nothing: when [set] or [build]
    raises, whatever the reason (an embedding that fails, an empty list of
    documents, a store that cannot merge), the adapter is as it was, with
    its stores, its saved index and its view. *)
Theorem failed_write_changes_nothing
  (E : Env) (docs : list Document) (r r' : Retriever.t) (e : exn) :
  Retriever.set E docs r = (Raise e, r') \/ Retriever.build E docs r = (Raise e, r') ->
  r' = r.
Proof.
  intros [H|H]; [eapply set_raise|eapply build_raise]; exact H.
Qed.

Lemma failed_write_changes_nothing_witness :
  snd (Retriever.set demo_env_down [demo_third] (demo_adapter demo_docs 5))
  = demo_adapter demo_docs 5.
Proof.
  apply (failed_write_changes_nothing demo_env_down [demo_third]
           (demo_adapter demo_docs 5) _ ExternalError).
  left. reflexivity.
Defined.

(** ** The saved index follows the store *)

Section SavedIndex.
Import Retriever.
Context (E : Env).

Lemma set_ok (docs : list Document) (r r' : t) :
  set E docs r = (Ok tt, r') ->
  exists ref,
    vectorstore r' = Some ref
    /\ persisted r' = Some (deref ref r')
    /\ retriever r' = Some (as_retriever ref (k_search r')).
Proof.
  unfold set. cbv [bind lift].
  destruct (from_documents E docs) as [store|e] eqn:Hf; [|discriminate].
  cbv [read merge raise].
  destruct (vectorstore r) as [ref|] eqn:Hv; [discriminate|].
  cbv [assign alloc bind update save read raise].
  unfold set_vectorstore, set_objects. cbn [vectorstore].
  intros [= <-]; eexists; repeat split.
Qed.

(** Loading what an adapter saved, on a new adapter at the same path. *)
Lemma load_setup_saved (docs : list Document) (k : Z) :
  (load ;;; setup) (init (Some docs) k) =
    (Ok tt,
     {| persisted := Some docs; k_search := k; objects := [docs];
        vectorstore := Some 0%nat; retriever := Some (as_retriever 0 k);
        gets := [] |}).
Proof. reflexivity. Qed.
End SavedIndex.

(** X4. After a successful [build] or [set] the saved index holds the
    documents of the store, so a new adapter on the same path that runs
    [load] and [setup] answers every [get] as the writing adapter does once
    it is set up. *)
Theorem saved_index_round_trip
  (E : Env) (docs : list Document) (r r1 : Retriever.t) :
  Retriever.build E docs r = (Ok tt, r1) \/ Retriever.set E docs r = (Ok tt, r1) ->
  exists ref fresh r2,
    Retriever.vectorstore r1 = Some ref
    /\ Retriever.persisted r1 = Some (Retriever.deref ref r1)
    /\ (Retriever.load ;;; Retriever.setup)
         (Retriever.init (Retriever.persisted r1) (Retriever.k_search r1))
       = (Ok tt, fresh)
    /\ Retriever.setup r1 = (Ok tt, r2)
    /\ forall q k, fst (Retriever.get E q k fresh) = fst (Retriever.get E q k r2).
Proof.
  intros H.
  assert (exists ref, Retriever.vectorstore r1 = Some ref
                      /\ Retriever.persisted r1 = Some (Retriever.deref ref r1))
    as (ref & Hv & Hp).
  { destruct H as [H|H].
    - apply build_ok in H. destruct H as [_ ->].
      exists (length (Retriever.objects r)). split; [reflexivity|].
      unfold Retriever.deref. simpl. now rewrite list_lookup_middle.
    - apply set_ok in H. destruct H as (ref & Hv & Hp & _). eauto. }
  exists ref. rewrite Hp. rewrite load_setup_saved.
  eexists. eexists. split; [exact Hv|]. split; [reflexivity|].
  split; [reflexivity|].
  cbv [Retriever.setup bind Retriever.update read].
  rewrite Hv. split; [reflexivity|].
  intros q k. rewrite !get_result.
  cbn [Retriever.retriever Retriever.set_retriever].
  cbn zeta.
  destruct (Retriever.truthy k) as [n|]; reflexivity.
Qed.

Lemma saved_index_round_trip_witness :
  let r1 := snd (Retriever.build demo_env (demo_docs ++ [demo_third])
                   (Retriever.init None 5)) in
  exists ref fresh r2,
    Retriever.vectorstore r1 = Some ref
    /\ Retriever.persisted r1 = Some (Retriever.deref ref r1)
    /\ (Retriever.load ;;; Retriever.setup)
         (Retriever.init (Retriever.persisted r1) (Retriever.k_search r1))
       = (Ok tt, fresh)
    /\ Retriever.setup r1 = (Ok tt, r2)
    /\ forall q k,
         fst (Retriever.get demo_env q k fresh) = fst (Retriever.get demo_env q k r2).
Proof.
  apply (saved_index_round_trip demo_env (demo_docs ++ [demo_third])
           (Retriever.init None 5)).
  left. reflexivity.
Defined.

(** ** QAService: construction, and what reads and writes leave alone *)

Section ServiceProperties.
Import QAService.
Context (E : Env).

Lemma init_cache_present (docs : list Document) (k : Z) (r : Retriever.t) (th : R) :
  init_cache {| cache := Retriever.init (Some docs) k; retriever := r; threshold := th |}
  = (Ok tt,
     {| cache :=
          {| Retriever.persisted := Some docs; Retriever.k_search := k;
             Retriever.objects := [docs]; Retriever.vectorstore := Some 0%nat;
             Retriever.retriever := Some (Retriever.as_retriever 0 k);
             Retriever.gets := [] |};
        retriever := r; threshold := th |}).
Proof. reflexivity. Qed.

Lemma init_retriever_present (files : list (str * result str))
      (docs : list Document) (k : Z) (c : Retriever.t) (th : R) :
  init_retriever E files
    {| cache := c; retriever := Retriever.init (Some docs) k; threshold := th |}
  = (Ok tt,
     {| cache := c;
        retriever :=
          {| Retriever.persisted := Some docs; Retriever.k_search := k;
             Retriever.objects := [docs]; Retriever.vectorstore := Some 0%nat;
             Retriever.retriever := Some (Retriever.as_retriever 0 k);
             Retriever.gets := [] |};
        threshold := th |}).
Proof. reflexivity. Qed.

Lemma init_retriever_absent (files : list (str * result str))
      (k : Z) (c : Retriever.t) (th : R) (s : t) :
  init_retriever E files
    {| cache := c; retriever := Retriever.init None k; threshold := th |}
  = (Ok tt, s) ->
  exists docs,
    Reader.read_documents E files = Ok docs /\ docs <> []
    /\ s = {| cache := c;
              retriever :=
                {| Retriever.persisted := Some docs; Retriever.k_search := k;
                   Retriever.objects := [docs]; Retriever.vectorstore := Some 0%nat;
                   Retriever.retriever := Some (Retriever.as_retriever 0 k);
                   Retriever.gets := [] |};
              threshold := th |}.
Proof.
  cbv [init_retriever bind on_retriever Retriever.load try_except
       Retriever.load_local read raise ret lift].
  cbn [retriever Retriever.persisted Retriever.init Retriever.vectorstore].
  cbn. destruct (decide (RuntimeError = RuntimeError)) as [_|]; [|congruence].
  cbn.
  destruct (Reader.read_documents E files) as [docs|e]; [|discriminate].
  destruct (Retriever.from_documents E docs) as [store|e] eqn:Hf;
    [|discriminate].
  apply from_documents_ok in Hf. destruct Hf as [Hne ->]. cbn.
  intros [= <-]. exists docs. repeat split; assumption.
Qed.

Lemma get_cached_answer_state (q : str) (k : option Z) (s : t) :
  snd (get_cached_answer E q k s) =
    {| cache := snd (Retriever.get E q k (cache s));
       retriever := retriever s; threshold := threshold s |}.
Proof.
  unfold get_cached_answer, bind, on_cache.
  destruct (Retriever.get E q k (cache s)) as [[[|d docs]|e] c];
    try reflexivity.
  unfold read, lift.
  destruct (filter_based_on_metric E _ q (d :: docs)) as [[|d' kept]|e];
    reflexivity.
Qed.

Lemma llm_context_state (q : str) (s : t) :
  snd (llm_context E q s) = s
  \/ snd (llm_context E q s) =
       {| cache := cache s;
          retriever := snd (Retriever.get E q None (retriever s));
          threshold := threshold s |}.
Proof.
  unfold llm_context, bind, lift.
  destruct (detect_intent E q) as [[|]|e]; [|now left|now left].
  right. unfold on_retriever.
  destruct (Retriever.get E q None (retriever s)) as [[docs|e] c]; reflexivity.
Qed.

Lemma get_llm_answer_state (q : str) (s : t) :
  snd (get_llm_answer E q s) = snd (llm_context E q s).
Proof.
  unfold get_llm_answer. unfold bind at 1.
  destruct (llm_context E q s) as [[ctx|e] s1]; [|reflexivity].
  unfold bind, lift, ret.
  destruct (prompt_format E "system" ctx); [|reflexivity].
  destruct (prompt_format E "user" q); [|reflexivity].
  destruct (llm_stream E _); reflexivity.
Qed.
End ServiceProperties.

(** X5. What the constructor leaves, when it returns: the cache adapter
    has a queryable view exactly when a cache index was on disk; the corpus
    adapter always has one, over the index from disk or, when there was
    none, over the documents read from the files, which are then also saved;
    and with a corpus index on disk the files are not read at all. *)
Theorem init_views
  (E : Env) (cache_disk index_disk : option (list Document))
  (files : list (str * result str)) (k : Z) (th : R) (s : QAService.t) :
  QAService.init E cache_disk index_disk files k th = Ok s ->
  QAService.threshold s = th
  /\ Retriever.retriever (QAService.cache s)
     = match cache_disk with
       | None => None
       | Some _ => Some (Retriever.as_retriever 0 k)
       end
  /\ (forall docs, cache_disk = Some docs ->
        Retriever.deref 0 (QAService.cache s) = docs)
  /\ (exists v docs,
        Retriever.retriever (QAService.retriever s) = Some v
        /\ Retriever.search_kwargs_k v = k
        /\ Retriever.deref (Retriever.view_store v) (QAService.retriever s) = docs
        /\ Retriever.persisted (QAService.retriever s) = Some docs
        /\ match index_disk with
           | Some on_disk => docs = on_disk
           | None => Reader.read_documents E files = Ok docs /\ docs <> []
           end)
  /\ (index_disk <> None ->
      forall files', QAService.init E cache_disk index_disk files' k th = Ok s).
Proof.
  unfold QAService.init. intros H.
  set (s0 := {| QAService.cache := Retriever.init cache_disk k;
                QAService.retriever := Retriever.init index_disk k;
                QAService.threshold := th |}) in *.
  assert (exists c,
            QAService.init_cache s0
            = (Ok tt, {| QAService.cache := c;
                         QAService.retriever := Retriever.init index_disk k;
                         QAService.threshold := th |})
            /\ Retriever.retriever c
               = match cache_disk with
                 | None => None
                 | Some _ => Some (Retriever.as_retriever 0 k)
                 end
            /\ (forall docs, cache_disk = Some docs -> Retriever.deref 0 c = docs))
    as (c & Hc & Hview & Hdocs).
  { subst s0. destruct cache_disk as [docs|].
    - eexists. split; [apply init_cache_present|]. split; [reflexivity|].
      now intros docs' [= <-].
    - eexists. split; [now apply init_cache_absent|]. split; [reflexivity|].
      discriminate. }
  rewrite (bind_ok _ _ _ _ _ Hc) in H.
  destruct index_disk as [on_disk|].
  - rewrite init_retriever_present in H. injection H as <-.
    split; [reflexivity|]. split; [exact Hview|]. split; [exact Hdocs|]. split.
    + eexists. exists on_disk. repeat split.
    + intros _ files'. rewrite (bind_ok _ _ _ _ _ Hc).
      now rewrite init_retriever_present.
  - destruct (QAService.init_retriever E files _) as [[[]|e] s1] eqn:Hr;
      [|discriminate].
    injection H as <-.
    apply init_retriever_absent in Hr. destruct Hr as (docs & Hread & Hne & ->).
    split; [reflexivity|]. split; [exact Hview|]. split; [exact Hdocs|]. split.
    + eexists. exists docs. repeat split; assumption.
    + congruence.
Qed.

Lemma init_views_witness :
  QAService.threshold demo_cold_start = 0.5%R
  /\ Retriever.retriever (QAService.cache demo_cold_start) = None.
Proof.
  destruct (init_views demo_env None (Some demo_docs) [] 5 0.5 demo_cold_start
              eq_refl) as (H1 & H2 & _).
  split; assumption.
Defined.

(** X6. Reading leaves the stores alone.  [get_cached_answer] leaves the
    corpus adapter and the threshold as they are and, in the cache adapter,
    the stores, the saved index and [k_search]; [get_llm_answer] leaves the
    cache adapter and the threshold as they are and, in the corpus adapter,
    the stores, the saved index, [k_search] and the view.  That holds
    whether they return or raise. *)
Theorem reads_leave_the_stores (E : Env) (q : str) (k : option Z) (s : QAService.t) :
  (let s1 := snd (QAService.get_cached_answer E q k s) in
   QAService.retriever s1 = QAService.retriever s
   /\ QAService.threshold s1 = QAService.threshold s
   /\ Retriever.objects (QAService.cache s1) = Retriever.objects (QAService.cache s)
   /\ Retriever.persisted (QAService.cache s1) = Retriever.persisted (QAService.cache s)
   /\ Retriever.vectorstore (QAService.cache s1)
      = Retriever.vectorstore (QAService.cache s)
   /\ Retriever.k_search (QAService.cache s1) = Retriever.k_search (QAService.cache s))
  /\ (let s2 := snd (QAService.get_llm_answer E q s) in
      QAService.cache s2 = QAService.cache s
      /\ QAService.threshold s2 = QAService.threshold s
      /\ Retriever.objects (QAService.retriever s2)
         = Retriever.objects (QAService.retriever s)
      /\ Retriever.persisted (QAService.retriever s2)
         = Retriever.persisted (QAService.retriever s)
      /\ Retriever.vectorstore (QAService.retriever s2)
         = Retriever.vectorstore (QAService.retriever s)
      /\ Retriever.k_search (QAService.retriever s2)
         = Retriever.k_search (QAService.retriever s)
      /\ Retriever.retriever (QAService.retriever s2)
         = Retriever.retriever (QAService.retriever s)).
Proof.
  split.
  - cbn zeta. rewrite get_cached_answer_state. cbn [QAService.cache
      QAService.retriever QAService.threshold]. rewrite get_state.
    destruct (Retriever.retriever (QAService.cache s)) as [v|];
      destruct (Retriever.truthy k) as [n|]; repeat split.
  - cbn zeta. rewrite get_llm_answer_state.
    destruct (llm_context_state E q s) as [->| ->]; [repeat split|].
    cbn [QAService.cache QAService.retriever QAService.threshold].
    rewrite get_state. cbn [Retriever.truthy].
    destruct (Retriever.retriever (QAService.retriever s)) as [v|] eqn:Hv;
      repeat split; exact Hv.
Qed.

(** ** Cache writes in general *)

Section CacheWriteState.
Import Retriever.
Context (E : Env).

(** [set] returns on an adapter without a store only, and the documents
    of the call are then the store. *)
Lemma set_ok_state (docs : list Document) (r r' : t) :
  set E docs r = (Ok tt, r') ->
  docs <> [] /\ vectorstore r = None
  /\ r' = {| persisted := Some docs; k_search := k_search r;
             objects := objects r ++ [docs];
             vectorstore := Some (length (objects r));
             retriever := Some (as_retriever (length (objects r)) (k_search r));
             gets := gets r |}.
Proof.
  unfold set. cbv [bind lift].
  destruct (from_documents E docs) as [store|e] eqn:Hf; [|discriminate].
  apply from_documents_ok in Hf. destruct Hf as (Hne & ->).
  cbv [read merge raise].
  destruct (vectorstore r) as [old|] eqn:Hv; [discriminate|].
  cbv [assign alloc bind update save read raise].
  unfold set_persisted, set_retriever, set_vectorstore, set_objects, deref.
  cbn [vectorstore objects persisted k_search retriever gets].
  rewrite (list_lookup_middle (objects r) [] docs (length (objects r)))
    by reflexivity.
  intros [= <-]. repeat split; assumption.
Qed.

Lemma set_over_store_embedded (docs : list Document) (r : t) (ref : nat) es :
  vectorstore r = Some ref -> docs <> [] ->
  embed_documents E (map page_content docs) = Ok es ->
  fst (set E docs r) = Raise AttributeError.
Proof.
  intros Hv Hne He. destruct docs as [|d docs]; [congruence|].
  now rewrite (set_over_store E d docs r es ref Hv He).
Qed.

Lemma set_fresh_embedded (docs : list Document) (r : t) es :
  vectorstore r = None -> docs <> [] ->
  embed_documents E (map page_content docs) = Ok es ->
  fst (set E docs r) = Ok tt.
Proof.
  intros Hv Hne He. destruct docs as [|d docs]; [congruence|].
  now rewrite (set_fresh E d docs r es Hv He).
Qed.
End CacheWriteState.

(** X7. [set_cache] writes to a cache that holds no index, and to no
    other.  When it returns, the dictionary was not empty and the cache
    held no index; the cache then holds one document per pair, in the order
    of the dictionary, that list is saved, the view is rebuilt with
    [k_search], and the corpus adapter and the threshold are as they were.
    On a cache that holds an index it raises, with [AttributeError] once
    the questions are embedded, and leaves the service as it was.  On a
    cache without index it returns for every dictionary that is not empty
    and whose questions can be embedded. *)
Theorem set_cache_writes_only_an_empty_cache
  (E : Env) (qa_pairs : list (str * str)) (s : QAService.t) :
  let new := map (fun qa => QAService.cache_document (fst qa) (snd qa)) qa_pairs in
  let run := QAService.set_cache E qa_pairs s in
  (fst run = Ok tt ->
     qa_pairs <> []
     /\ Retriever.vectorstore (QAService.cache s) = None
     /\ QAService.retriever (snd run) = QAService.retriever s
     /\ QAService.threshold (snd run) = QAService.threshold s
     /\ exists ref,
          Retriever.vectorstore (QAService.cache (snd run)) = Some ref
          /\ Retriever.deref ref (QAService.cache (snd run)) = new
          /\ Retriever.persisted (QAService.cache (snd run)) = Some new
          /\ Retriever.retriever (QAService.cache (snd run))
             = Some (Retriever.as_retriever ref
                       (Retriever.k_search (QAService.cache s))))
  /\ (forall ref,
        Retriever.vectorstore (QAService.cache s) = Some ref ->
        snd run = s
        /\ (exists e, fst run = Raise e)
        /\ (forall es,
              qa_pairs <> [] ->
              Retriever.embed_documents E (map page_content new) = Ok es ->
              fst run = Raise AttributeError))
  /\ (forall es,
        Retriever.vectorstore (QAService.cache s) = None ->
        qa_pairs <> [] ->
        Retriever.embed_documents E (map page_content new) = Ok es ->
        fst run = Ok tt).
Proof.
  intros new run. subst run. unfold QAService.set_cache. fold new.
  assert (qa_pairs <> [] -> new <> []) as Hnew.
  { intros Hne Hn. apply Hne. subst new. now destruct qa_pairs. }
  unfold QAService.on_cache.
  destruct (Retriever.set E new (QAService.cache s)) as [res c] eqn:Hs.
  cbn [fst snd QAService.cache QAService.retriever QAService.threshold].
  split; [|split].
  - intros ->. apply set_ok_state in Hs. destruct Hs as (Hne & Hv & ->).
    split; [intros ->; now apply Hne|]. split; [exact Hv|].
    split; [reflexivity|]. split; [reflexivity|].
    exists (length (Retriever.objects (QAService.cache s))).
    split; [reflexivity|]. split; [|split; reflexivity].
    unfold Retriever.deref. cbn [Retriever.objects].
    now rewrite list_lookup_middle.
  - intros ref Hv.
    destruct (set_over_store_raises E new (QAService.cache s) ref Hv)
      as (Hst & e & He).
    rewrite Hs in Hst, He. cbn [fst snd] in Hst, He. subst c res.
    split; [now destruct s|]. split; [eauto|].
    intros es Hne Hes.
    pose proof (set_over_store_embedded E new (QAService.cache s) ref es
                  Hv (Hnew Hne) Hes) as H.
    now rewrite Hs in H.
  - intros es Hv Hne Hes.
    pose proof (set_fresh_embedded E new (QAService.cache s) es
                  Hv (Hnew Hne) Hes) as H.
    now rewrite Hs in H.
Qed.

Lemma set_cache_writes_only_an_empty_cache_witness :
  (let run := QAService.set_cache demo_env [(lit "ab", lit "first");
                                             (lit "cd", lit "second")]
                demo_cold_start in
   fst run = Ok tt
   /\ Retriever.persisted (QAService.cache (snd run)) = Some demo_docs)
  /\ (let run := QAService.set_cache demo_env [(lit "ef", lit "third")]
                   (demo_service demo_docs 0.5) in
      snd run = demo_service demo_docs 0.5
      /\ fst run = Raise AttributeError).
Proof.
  split.
  - pose proof (set_cache_writes_only_an_empty_cache demo_env
                  [(lit "ab", lit "first"); (lit "cd", lit "second")]
                  demo_cold_start) as (H1 & _ & H3).
    assert (fst (QAService.set_cache demo_env
                   [(lit "ab", lit "first"); (lit "cd", lit "second")]
                   demo_cold_start) = Ok tt) as Hok.
    { apply (H3 [[1%R]; [1%R]]); [reflexivity|discriminate|reflexivity]. }
    split; [exact Hok|].
    destruct (H1 Hok) as (_ & _ & _ & _ & ref & _ & _ & Hp & _). exact Hp.
  - pose proof (set_cache_writes_only_an_empty_cache demo_env
                  [(lit "ef", lit "third")] (demo_service demo_docs 0.5))
      as (_ & H2 & _).
    destruct (H2 0%nat eq_refl) as (Hs & _ & He).
    split; [exact Hs|].
    apply (He [[1%R]]); [discriminate|reflexivity].
Defined.

(** ** routes: what the endpoints answer *)

Section Endpoints.
Import QAService.
Context (E : Env).

Lemma get_cached_answer_pair (q : str) (k : option Z) (s : t) :
  get_cached_answer E q k s =
    (fst (get_cached_answer E q k s),
     {| cache := snd (Retriever.get E q k (cache s));
        retriever := retriever s; threshold := threshold s |}).
Proof. rewrite <- get_cached_answer_state. apply surjective_pairing. Qed.

Lemma get_one_length (q : str) (r : Retriever.t) (docs : list Document) :
  fst (Retriever.get E q (Some 1) r) = Ok docs -> (length docs <= 1)%nat.
Proof.
  rewrite get_result. destruct (Retriever.retriever r) as [v|]; [|discriminate].
  cbn. destruct (embed_query E q); [|discriminate]. cbn.
  destruct (index_refuses E 1); [discriminate|].
  intros [= <-]. rewrite length_take. lia.
Qed.

Lemma list_filter_length {A} (f : A -> bool) (l : list A) :
  (length (List.filter f l) <= length l)%nat.
Proof. induction l as [|x l IH]; simpl; [lia|]. destruct (f x); simpl; lia. Qed.

Lemma get_cached_answer_one (q : str) (s : t) (answers : list value) :
  fst (get_cached_answer E q (Some 1) s) = Ok (Some answers) ->
  (length answers <= 1)%nat.
Proof.
  destruct (Retriever.get E q (Some 1) (cache s)) as [[docs|e] c] eqn:Hg.
  - pose proof (get_one_length q (cache s) docs) as Hlen.
    rewrite Hg in Hlen. specialize (Hlen eq_refl).
    rewrite (get_cached_answer_run E s q (Some 1) docs c Hg).
    destruct docs as [|d docs]; [now intros [= <-]|].
    unfold filter_based_on_metric.
    destruct (filter_loop E (threshold s) q [] (d :: docs)) as [kept|e] eqn:Hf;
      [|discriminate].
    apply filter_loop_spec in Hf. rewrite app_nil_l in Hf.
    pose proof (list_filter_length (passes E (threshold s) q) (d :: docs)) as Hk.
    rewrite <- Hf in Hk.
    destruct kept; [discriminate|]. intros [= <-].
    simpl. rewrite length_map. simpl in Hk, Hlen. lia.
  - unfold get_cached_answer, bind, on_cache. rewrite Hg. discriminate.
Qed.
End Endpoints.

(** X8. While the cache adapter has no queryable view, as after a start
    without a cache index on disk, [GET /ask] answers [False] for every
    question and never reaches the generation path: the corpus adapter is
    not queried, and the cache adapter still has no view afterwards, so the
    next call answers [False] as well. *)
Theorem ask_without_cache_view_answers_false
  (E : Env) (q : str) (s : QAService.t) :
  Retriever.retriever (QAService.cache s) = None ->
  fst (Routes.ask E q s) = Routes.RFalse
  /\ Retriever.retriever (QAService.cache (snd (Routes.ask E q s))) = None
  /\ QAService.retriever (snd (Routes.ask E q s)) = QAService.retriever s.
Proof.
  intros Hv. unfold Routes.ask. rewrite get_cached_answer_pair.
  rewrite (get_cached_answer_without_view E s q (Some 1) Hv).
  cbn [fst snd QAService.cache QAService.retriever].
  rewrite get_state, Hv. repeat split. exact Hv.
Qed.

Lemma ask_without_cache_view_answers_false_witness :
  fst (Routes.ask demo_env (lit "ab") demo_cold_start) = Routes.RFalse
  /\ Retriever.retriever
       (QAService.cache (snd (Routes.ask demo_env (lit "ab") demo_cold_start)))
     = None
  /\ QAService.retriever (snd (Routes.ask demo_env (lit "ab") demo_cold_start))
     = QAService.retriever demo_cold_start.
Proof.
  apply (ask_without_cache_view_answers_false demo_env (lit "ab") demo_cold_start).
  reflexivity.
Defined.

(** X9. [GET /ask] answers with at most one cached answer, since it asks
    the cache for one result; and when it answers with a cached answer, the
    corpus adapter has not been queried. *)
Theorem ask_answers_at_most_one_cached
  (E : Env) (q : str) (s : QAService.t) (answers : list value) :
  fst (Routes.ask E q s) = Routes.RAnswers answers ->
  (length answers <= 1)%nat
  /\ (answers <> [] ->
      QAService.retriever (snd (Routes.ask E q s)) = QAService.retriever s).
Proof.
  unfold Routes.ask. rewrite get_cached_answer_pair.
  destruct (fst (QAService.get_cached_answer E q (Some 1) s)) as [r|e] eqn:Hc;
    [|discriminate].
  destruct r as [[|a l]|]; cbn [Routes.falsy].
  - destruct (QAService.get_llm_answer E q _) as [[text|e] s2];
      [discriminate|].
    cbn. intros [= <-]. split; [simpl; lia|congruence].
  - cbn. intros [= <-]. split; [|reflexivity].
    now apply (get_cached_answer_one E q s).
  - destruct (QAService.get_llm_answer E q _) as [[text|e] s2]; discriminate.
Qed.

Lemma ask_answers_at_most_one_cached_witness :
  (length [VStr (lit "first")] <= 1)%nat
  /\ ([VStr (lit "first")] <> [] ->
      QAService.retriever
        (snd (Routes.ask demo_env (lit "ab") (demo_service demo_docs 0.5)))
      = QAService.retriever (demo_service demo_docs 0.5)).
Proof.
  apply (ask_answers_at_most_one_cached demo_env (lit "ab")
           (demo_service demo_docs 0.5)).
  unfold Routes.ask. rewrite get_cached_answer_pair.
  assert (Retriever.get demo_env (lit "ab") (Some 1)
            (QAService.cache (demo_service demo_docs 0.5))
          = (Ok [demo_first],
             Retriever.set_retriever (Some (Retriever.as_retriever 0 1))
               (Retriever.log_get (lit "ab") (Some 1) (demo_adapter demo_docs 5))))
    as Hg by reflexivity.
  rewrite (get_cached_answer_run demo_env _ _ _ _ _ Hg).
  unfold QAService.filter_based_on_metric. cbn [QAService.filter_loop].
  change (page_content demo_first) with (lit "ab").
  rewrite evaluate_demo_same. cbn [rbind].
  change (QAService.threshold (demo_service demo_docs 0.5)) with 0.5%R.
  rewrite gtb_1_half. reflexivity.
Defined.

(** X10. The first cache write makes [GET /ask] answer.  On a service whose
    cache holds no index, [POST /set-cache] with one pair answers [None]
    (the endpoint passes on what [QAService.set_cache] returns), and a
    following [GET /ask] with the question of the pair answers with the
    answer of the pair, for a question whose score against itself is
    defined and above the threshold, where the index answers a search for
    one result with what it holds. *)
Theorem set_cache_then_ask_answers
  (E : Env) (s : QAService.t) (q a : str) (e : list R) (score : R) :
  Retriever.vectorstore (QAService.cache s) = None ->
  embed_query E q = Ok e ->
  MetricEvaluator.evaluate E q q = Ok score ->
  (score > QAService.threshold s)%R ->
  index_refuses E 1 = None ->
  (forall l, Permutation (rank E q l) l) ->
  let written := Routes.set_cache E (Ok [(q, a)]) s in
  fst written = Routes.RNone
  /\ fst (Routes.ask E q (snd written)) = Routes.RAnswers [VStr a].
Proof.
  intros Hv He Hs Hgt Hi Hrank written. subst written.
  set (d := QAService.cache_document q a).
  pose proof (embed_documents_one E q e He) as Hed.
  pose proof (set_fresh E d [] (QAService.cache s) [e] Hv Hed) as H1.
  cbv zeta in H1. apply set_cache_run in H1.
  unfold Routes.set_cache. rewrite H1. cbn [fst snd].
  split; [reflexivity|].
  match type of H1 with _ = (_, ?st) => set (s1 := st) end.
  set (n := length (Retriever.objects (QAService.cache s))) in *.
  set (v := Retriever.as_retriever n (Retriever.k_search (QAService.cache s))).
  assert (Retriever.get E q (Some 1) (QAService.cache s1)
          = (Ok [d],
             Retriever.set_retriever (Some (Retriever.set_k 1 v))
               (Retriever.log_get q (Some 1) (QAService.cache s1)))) as Hg.
  { rewrite (get_override E q 1 1 (QAService.cache s1) v eq_refl eq_refl).
    rewrite (surjective_pairing (Retriever.invoke E _ q _)).
    rewrite invoke_state, (invoke_result E _ q _ e He)
      by (try exact Hi; simpl; lia).
    f_equal. f_equal.
    assert (Retriever.deref (Retriever.view_store (Retriever.set_k 1 v))
              (Retriever.set_retriever (Some (Retriever.set_k 1 v))
                 (Retriever.log_get q (Some 1) (QAService.cache s1))) = [d]) as ->.
    { unfold Retriever.deref. simpl. now rewrite list_lookup_middle. }
    pose proof (Hrank [d]) as Hp. apply Permutation_sym in Hp.
    apply Permutation_length_1_inv in Hp. rewrite Hp. reflexivity. }
  unfold Routes.ask. rewrite get_cached_answer_pair.
  rewrite (get_cached_answer_run E s1 q (Some 1) _ _ Hg).
  unfold QAService.filter_based_on_metric. cbn [QAService.filter_loop].
  change (page_content d) with q.
  rewrite Hs. cbn [rbind].
  assert (QAService.gtb score (QAService.threshold s1) = true) as ->
    by (apply gtb_true; exact Hgt).
  reflexivity.
Qed.

Lemma set_cache_then_ask_answers_witness :
  let written := Routes.set_cache demo_env (Ok [(lit "ab", lit "first")])
                   demo_cold_start in
  fst written = Routes.RNone
  /\ fst (Routes.ask demo_env (lit "ab") (snd written))
     = Routes.RAnswers [VStr (lit "first")].
Proof.
  apply (set_cache_then_ask_answers demo_env demo_cold_start
           (lit "ab") (lit "first") [1%R] 1%R
           eq_refl eq_refl evaluate_demo_same
           ltac:(simpl; lra) eq_refl (fun l => Permutation_refl l)).
Defined.

(** X11. With the stand-in model that [routes.py] wires in, the generation
    path does not depend on the question: as long as the three prompts
    format, [get_llm_answer] returns the model's fixed reply without its
    six last characters, the label, for every question and every service,
    the corpus is never queried and the service is left as it was;
    [GET /ask-llm] answers with that text. *)
Theorem dummy_llm_answer_is_constant
  (E : Env) (q : str) (s : QAService.t) (intent system user : str) :
  prompt_format E "intent" q = Ok intent ->
  prompt_format E "system" [] = Ok system ->
  prompt_format E "user" q = Ok user ->
  QAService.get_llm_answer (DummyLLM.wire E) q s = (Ok (take 29 DummyLLM.reply), s)
  /\ DummyLLM.reply = take 29 DummyLLM.reply ++ Otvet
  /\ Routes.ask_llm (DummyLLM.wire E) q s
     = (Routes.RText (take 29 DummyLLM.reply), s).
Proof.
  intros Hi Hs Hu.
  assert (QAService.get_llm_answer (DummyLLM.wire E) q s
          = (Ok (take 29 DummyLLM.reply), s)) as H.
  { unfold QAService.get_llm_answer, QAService.llm_context,
      QAService.detect_intent, bind, lift, ret.
    cbn [prompt_format llm_invoke llm_stream DummyLLM.wire].
    rewrite Hi. cbn [rbind DummyLLM.invoke].
    assert (startswith (lower (DummyLLM.wire E) da) da = true) as ->
      by reflexivity.
    rewrite Hs, Hu. reflexivity. }
  split; [exact H|]. split; [reflexivity|].
  unfold Routes.ask_llm. now rewrite H.
Qed.

Lemma dummy_llm_answer_is_constant_witness :
  QAService.get_llm_answer (DummyLLM.wire demo_env) (lit "ab") demo_cold_start
    = (Ok (take 29 DummyLLM.reply), demo_cold_start)
  /\ DummyLLM.reply = take 29 DummyLLM.reply ++ Otvet
  /\ Routes.ask_llm (DummyLLM.wire demo_env) (lit "ab") demo_cold_start
     = (Routes.RText (take 29 DummyLLM.reply), demo_cold_start).
Proof.
  apply (dummy_llm_answer_is_constant demo_env (lit "ab") demo_cold_start
           (lit "ab") [] (lit "ab")); reflexivity.
Defined.

(** ** The regular expression engine finds matches of the pattern *)

Section RegexSoundness.
Import Regex RegexSpec.

Lemma run_sound {A} (r : re) :
  forall (s : str) (c : caps) (k : str -> caps -> option A) (x : A),
    run r s c k = Some x ->
    exists s' c', matches r s c s' c' /\ k s' c' = Some x.
Proof.
  induction r as [|f|a IHa b IHb|a IHa b IHb|a IHa|i a IHa]; intros s c k x H.
  - exists s, c. split; [constructor|exact H].
  - simpl in H. destruct s as [|y s]; [discriminate|].
    destruct (f y) eqn:Hf; [|discriminate].
    exists s, c. split; [now constructor|exact H].
  - simpl in H. apply IHa in H. destruct H as (s1 & c1 & Ha & H).
    apply IHb in H. destruct H as (s2 & c2 & Hb & H).
    exists s2, c2. split; [econstructor; eassumption|exact H].
  - simpl in H. destruct (run a s c k) as [y|] eqn:Hra.
    + injection H as ->. apply IHa in Hra. destruct Hra as (s1 & c1 & Ha & H).
      exists s1, c1. split; [now apply matches_alt_l|exact H].
    + apply IHb in H. destruct H as (s1 & c1 & Hb & H).
      exists s1, c1. split; [now apply matches_alt_r|exact H].
  - simpl in H. revert H. generalize (length s) at 1. intros n.
    revert s c. induction n as [|n IHn]; intros s c H.
    + exists s, c. split; [constructor|exact H].
    + match type of H with
      | match ?m with _ => _ end = _ => destruct m as [y|] eqn:Hra
      end.
      * injection H as ->. apply IHa in Hra.
        destruct Hra as (s1 & c1 & Ha & H).
        destruct (length s1 <? length s)%nat; [|discriminate].
        apply IHn in H. destruct H as (s2 & c2 & Hs & H).
        exists s2, c2. split; [econstructor; eassumption|exact H].
      * exists s, c. split; [constructor|exact H].
  - simpl in H. apply IHa in H. destruct H as (s1 & c1 & Ha & H).
    eexists. eexists. split; [constructor; exact Ha|exact H].
Qed.

(** What is matched is a prefix of the text. *)
Lemma matches_prefix (r : re) (s : str) (c : caps) (s' : str) (c' : caps) :
  matches r s c s' c' ->
  exists pre, s = pre ++ s' /\ take (length s - length s') s = pre.
Proof.
  assert (forall (pre s' : str), take (length (pre ++ s') - length s') (pre ++ s') = pre)
    as Htake.
  { intros pre t. rewrite length_app.
    replace (length pre + length t - length t)%nat with (length pre) by lia.
    now rewrite take_app_length. }
  induction 1 as [s c|f x s c Hf|a b s c s1 c1 s2 c2 _ (p1 & -> & _) _ (p2 & -> & _)
                  |a b s c s1 c1 _ IH|a b s c s1 c1 _ IH|a s c
                  |a s c s1 c1 s2 c2 _ (p1 & -> & _) _ (p2 & -> & _)
                  |i a s c s1 c1 _ IH].
  - exists []. split; [reflexivity|]. now rewrite Nat.sub_diag.
  - exists [x]. split; [reflexivity|]. apply (Htake [x] s).
  - exists (p1 ++ p2). rewrite <- app_assoc. split; [reflexivity|].
    rewrite app_assoc. apply Htake.
  - exact IH.
  - exact IH.
  - exists []. split; [reflexivity|]. now rewrite Nat.sub_diag.
  - exists (p1 ++ p2). rewrite <- app_assoc. split; [reflexivity|].
    rewrite app_assoc. apply Htake.
  - exact IH.
Qed.

Lemma matches_Lit (l s : str) (c : caps) (s' : str) (c' : caps) :
  matches (Lit l) s c s' c' -> s = l ++ s' /\ c' = c.
Proof.
  revert s. induction l as [|x l IH]; intros s H; simpl in H.
  - inversion H; subst. split; reflexivity.
  - inversion H as [| |a b s0 c0 s1 c1 s2 c2 Ha Hb| | | | |]; subst.
    inversion Ha as [|f y s3 c3 Hy| | | | | |]; subst.
    apply N.eqb_eq in Hy. subst y.
    apply IH in Hb. destruct Hb as [-> ->]. split; reflexivity.
Qed.

Lemma matches_Rep_Cls (n : nat) (f : char -> bool) :
  forall (s : str) (c : caps) (s' : str) (c' : caps),
    matches (Rep n (Cls f)) s c s' c' ->
    exists pre, s = pre ++ s' /\ length pre = n
                /\ Forall (fun x => f x = true) pre /\ c' = c.
Proof.
  induction n as [|n IH]; intros s c s' c' H; simpl in H.
  - inversion H; subst. exists []. repeat split. constructor.
  - inversion H as [| |a b s0 c0 s1 c1 s2 c2 Ha Hb| | | | |]; subst.
    inversion Ha as [|g y s3 c3 Hy| | | | | |]; subst.
    apply IH in Hb. destruct Hb as (pre & -> & Hlen & Hall & ->).
    exists (y :: pre). repeat split; [simpl; lia|now constructor].
Qed.

Lemma matches_Star_Cls (f : char -> bool) (s : str) (c : caps) (s' : str) (c' : caps) :
  matches (Star (Cls f)) s c s' c' ->
  exists pre, s = pre ++ s' /\ Forall (fun x => f x = true) pre /\ c' = c.
Proof.
  remember (Star (Cls f)) as r eqn:Hr. intros H.
  induction H as [| | | | |a s c|a s c s1 c1 s2 c2 Ha _ Hs IH|]; try discriminate.
  - exists []. repeat split. constructor.
  - injection Hr as ->.
    inversion Ha as [|g y s3 c3 Hy| | | | | |]; subst.
    destruct (IH eq_refl) as (pre & -> & Hall & ->).
    exists (y :: pre). repeat split. now constructor.
Qed.
End RegexSoundness.

(** ** Reader: what the metadata pattern captures *)

Section MetadataPattern.
Import Regex RegexSpec.
Context (E : Env).

Tactic Notation "inv_seq" hyp(H) ident(Ha) ident(Hb) :=
  inversion H as [| |? ? ? ? ? ? ? ? Ha Hb| | | | |]; subst; clear H.

Lemma matches_Opt_Lit (l s : str) (c : caps) (s' : str) (c' : caps) :
  matches (Opt (Lit l)) s c s' c' ->
  exists opt, s = opt ++ s' /\ (opt = [] \/ opt = l) /\ c' = c.
Proof.
  intros H. inversion H as [| | |? ? ? ? ? ? Ha|? ? ? ? ? ? Hb| | |]; subst.
  - apply matches_Lit in Ha. destruct Ha as [-> ->].
    exists l. repeat split. now right.
  - inversion Hb; subst. exists []. repeat split. now left.
Qed.

Lemma matches_Plus_Cls (f : char -> bool) (s : str) (c : caps) (s' : str) (c' : caps) :
  matches (Plus (Cls f)) s c s' c' ->
  exists pre, s = pre ++ s' /\ pre <> []
              /\ Forall (fun x => f x = true) pre /\ c' = c.
Proof.
  intros H. inv_seq H Ha Hb.
  inversion Ha as [|? y ? ? Hy| | | | | |]; subst.
  apply matches_Star_Cls in Hb. destruct Hb as (pre & -> & Hall & ->).
  exists (y :: pre). repeat split; [discriminate|now constructor].
Qed.

Lemma link_group_shape (s : str) (c : caps) (s' : str) (c' : caps) :
  matches (Seq (Lit (lit "http"))
          (Seq (Opt (Lit (lit "s")))
          (Seq (Lit (lit "://")) (Plus (Reader.nonspace E))))) s c s' c' ->
  exists opt ns,
    s = (lit "http" ++ opt ++ lit "://" ++ ns) ++ s'
    /\ (opt = [] \/ opt = lit "s")
    /\ ns <> []
    /\ Forall (fun x => is_space E x = false) ns
    /\ c' = c.
Proof.
  intros H. inv_seq H H1 R1. inv_seq R1 H2 R2. inv_seq R2 H3 H4.
  apply matches_Plus_Cls in H4. destruct H4 as (ns & -> & Hne & Hns & ->).
  apply (matches_Lit (lit "://")) in H3. destruct H3 as [-> ->].
  apply (matches_Opt_Lit (lit "s")) in H2. destruct H2 as (opt & -> & Hopt & ->).
  apply (matches_Lit (lit "http")) in H1. destruct H1 as [-> ->].
  exists opt, ns. split.
  - now rewrite <- !app_assoc.
  - split; [exact Hopt|]. split; [exact Hne|]. split; [|reflexivity].
    eapply Forall_impl; [exact Hns|]. intros x Hx.
    now apply negb_true_iff in Hx.
Qed.

Lemma date_group_shape (s : str) (c : caps) (s' : str) (c' : caps) :
  matches (Seq (Rep 2 (Reader.digit E))
          (Seq (Lit (lit "-")) (Rep 4 (Reader.digit E)))) s c s' c' ->
  exists d1 d2 d3 d4 d5 d6,
    s = [d1; d2; 45%N; d3; d4; d5; d6] ++ s'
    /\ Forall (fun x => is_digit E x = true) [d1; d2; d3; d4; d5; d6]
    /\ c' = c.
Proof.
  intros H. inv_seq H H1 R1. inv_seq R1 H2 H3.
  apply (matches_Rep_Cls 4) in H3. destruct H3 as (p2 & -> & Hl2 & Ha2 & ->).
  apply (matches_Lit (lit "-")) in H2. destruct H2 as [-> ->].
  apply (matches_Rep_Cls 2) in H1. destruct H1 as (p1 & -> & Hl1 & Ha1 & ->).
  destruct p1 as [|d1 [|d2 [|]]]; try discriminate.
  destruct p2 as [|d3 [|d4 [|d5 [|d6 [|]]]]]; try discriminate.
  exists d1, d2, d3, d4, d5, d6. split; [reflexivity|]. split; [|reflexivity].
  inversion Ha1 as [|? ? ? Ha1']; subst. inversion Ha1'; subst.
  inversion Ha2 as [|? ? ? Hb]; subst. inversion Hb as [|? ? ? Hc]; subst.
  inversion Hc as [|? ? ? Hd]; subst. inversion Hd; subst.
  repeat constructor; assumption.
Qed.

(** What a match of the metadata pattern captures: in group 1 a link
    ["http"], maybe ["s"], ["://"] and one or more characters, none of them
    a blank; in group 2 two digits, a dash and four digits. *)
Lemma metadata_pattern_captures (s s' : str) (c' : caps) :
  matches (Reader.metadata_pattern E) s [] s' c' ->
  exists opt ns d1 d2 d3 d4 d5 d6,
    c' = [(2%nat, [d1; d2; 45%N; d3; d4; d5; d6]);
          (1%nat, lit "http" ++ opt ++ lit "://" ++ ns)]
    /\ (opt = [] \/ opt = lit "s")
    /\ ns <> []
    /\ Forall (fun x => is_space E x = false) ns
    /\ Forall (fun x => is_digit E x = true) [d1; d2; d3; d4; d5; d6].
Proof.
  unfold Reader.metadata_pattern. intros H.
  inv_seq H H1 R1. inv_seq R1 H2 R2. inv_seq R2 H3 R3. inv_seq R3 H4 R4.
  inv_seq R4 H5 R5. inv_seq R5 H6 H7.
  inversion H7 as [| | | | | | |? ? ? ? ? ? Hg2]; subst. clear H7.
  destruct (matches_prefix _ _ _ _ _ Hg2) as (p2 & Hp2 & ->).
  apply date_group_shape in Hg2.
  destruct Hg2 as (d1 & d2 & d3 & d4 & d5 & d6 & Hdt & Hdig & ->).
  rewrite Hp2 in Hdt. apply app_inv_tail in Hdt. subst p2. clear Hp2.
  apply (matches_Lit (lit "date: ")) in H6. destruct H6 as [_ ->].
  apply matches_Star_Cls in H5. destruct H5 as (sp2 & _ & _ & ->).
  inversion H4 as [| | | | | | |? ? ? ? ? ? Hg1]; subst. clear H4.
  destruct (matches_prefix _ _ _ _ _ Hg1) as (p1 & Hp1 & ->).
  apply link_group_shape in Hg1.
  destruct Hg1 as (opt & ns & Hl & Hopt & Hne & Hns & ->).
  rewrite Hp1 in Hl. apply app_inv_tail in Hl. subst p1. clear Hp1.
  apply (matches_Lit (lit "link: ")) in H3. destruct H3 as [_ ->].
  apply matches_Star_Cls in H2. destruct H2 as (sp1 & _ & _ & ->).
  apply (matches_Lit (lit " Metadata")) in H1. destruct H1 as [_ ->].
  exists opt, ns, d1, d2, d3, d4, d5, d6. repeat split; assumption.
Qed.
End MetadataPattern.

(** ** Reader: the date of a metadata block is never read *)

Section MetadataDate.
Import Regex RegexSpec.
Context (E : Env).

Tactic Notation "inv_seq" hyp(H) ident(Ha) ident(Hb) :=
  inversion H as [| |? ? ? ? ? ? ? ? Ha Hb| | | | |]; subst; clear H.

Lemma matches_Cls (f : char -> bool) (s : str) (c : caps) (s' : str) (c' : caps) :
  matches (Cls f) s c s' c' -> exists x, s = x :: s' /\ f x = true /\ c' = c.
Proof. intros H. inversion H; subst. eauto. Qed.

Lemma matches_two (f g : char -> bool) (s : str) (c : caps) (s' : str) (c' : caps) :
  matches (Seq (Cls f) (Cls g)) s c s' c' ->
  exists x y, s = [x; y] ++ s' /\ c' = c.
Proof.
  intros H. inv_seq H Ha Hb.
  apply matches_Cls in Hb. destruct Hb as (y & -> & _ & ->).
  apply matches_Cls in Ha. destruct Ha as (x & -> & _ & ->).
  eauto.
Qed.

Lemma matches_Lit1_Cls (a : char) (g : char -> bool)
      (s : str) (c : caps) (s' : str) (c' : caps) :
  matches (Seq (Lit [a]) (Cls g)) s c s' c' ->
  exists x y, s = [x; y] ++ s' /\ c' = c.
Proof.
  intros H. inv_seq H Ha Hb.
  apply matches_Cls in Hb. destruct Hb as (y & -> & _ & ->).
  apply (matches_Lit [a]) in Ha. destruct Ha as [-> ->].
  eauto.
Qed.

Ltac one_or_two H :=
  first
    [ apply (matches_Lit1_Cls _ _) in H; destruct H as (x & y & -> & ->);
      exists [x; y]; repeat split; right; reflexivity
    | apply (matches_two _ _) in H; destruct H as (x & y & -> & ->);
      exists [x; y]; repeat split; right; reflexivity
    | apply (matches_Cls _) in H; destruct H as (x & -> & _ & ->);
      exists [x]; repeat split; left; reflexivity ].

Lemma day_consumes (s : str) (c : caps) (s' : str) (c' : caps) :
  matches (Alt (Seq (Lit (lit "3")) (Reader.range "0" "1"))
          (Alt (Seq (Reader.range "1" "2") (Reader.digit E))
          (Alt (Seq (Lit (lit "0")) (Reader.range "1" "9"))
          (Alt (Reader.range "1" "9")
               (Seq (Lit (lit " ")) (Reader.range "1" "9")))))) s c s' c' ->
  exists pre, s = pre ++ s' /\ (length pre = 1%nat \/ length pre = 2%nat) /\ c' = c.
Proof.
  intros H.
  inversion H as [| | |? ? ? ? ? ? H1|? ? ? ? ? ? R1| | |]; subst; clear H;
    [one_or_two H1|].
  inversion R1 as [| | |? ? ? ? ? ? H2|? ? ? ? ? ? R2| | |]; subst; clear R1;
    [one_or_two H2|].
  inversion R2 as [| | |? ? ? ? ? ? H3|? ? ? ? ? ? R3| | |]; subst; clear R2;
    [one_or_two H3|].
  inversion R3 as [| | |? ? ? ? ? ? H4|? ? ? ? ? ? H5| | |]; subst; clear R3;
    [one_or_two H4|one_or_two H5].
Qed.

Lemma month_consumes (s : str) (c : caps) (s' : str) (c' : caps) :
  matches (Alt (Seq (Lit (lit "1")) (Reader.range "0" "2"))
          (Alt (Seq (Lit (lit "0")) (Reader.range "1" "9"))
               (Reader.range "1" "9"))) s c s' c' ->
  exists pre, s = pre ++ s' /\ (length pre = 1%nat \/ length pre = 2%nat) /\ c' = c.
Proof.
  intros H.
  inversion H as [| | |? ? ? ? ? ? H1|? ? ? ? ? ? R1| | |]; subst; clear H;
    [one_or_two H1|].
  inversion R1 as [| | |? ? ? ? ? ? H2|? ? ? ? ? ? H3| | |]; subst; clear R1;
    [one_or_two H2|one_or_two H3].
Qed.

(** A day, a dash, a month and a dash come before the year: a text that
    matches the date format has a dash among its second to fifth
    characters after the first dash. *)
Lemma dmY_needs_two_dashes (s s' : str) (c c' : caps) :
  matches (Reader.dmY_pattern E) s c s' c' ->
  exists day month rest,
    s = day ++ [45%N] ++ month ++ [45%N] ++ rest
    /\ (length day = 1%nat \/ length day = 2%nat)
    /\ (length month = 1%nat \/ length month = 2%nat).
Proof.
  unfold Reader.dmY_pattern. intros H.
  inv_seq H H1 R1. inv_seq R1 H2 R2. inv_seq R2 H3 R3. inv_seq R3 H4 H5.
  destruct (matches_prefix _ _ _ _ _ H5) as (rest & -> & _). clear H5.
  apply (matches_Lit (lit "-")) in H4. destruct H4 as [-> _].
  inversion H3 as [| | | | | | |? ? ? ? ? ? Hm]; subst. clear H3.
  apply month_consumes in Hm. destruct Hm as (month & -> & Hlm & _).
  apply (matches_Lit (lit "-")) in H2. destruct H2 as [-> _].
  inversion H1 as [| | | | | | |? ? ? ? ? ? Hd]; subst. clear H1.
  apply day_consumes in Hd. destruct Hd as (day & -> & Hld & _).
  exists day, month, (rest ++ s'). repeat split; assumption.
Qed.

Lemma is_digit_dash : is_digit E 45%N = false.
Proof. reflexivity. Qed.

(** The two-part date that the metadata pattern captures is never a date
    for [strptime]. *)
Lemma strptime_two_part_fails (d1 d2 d3 d4 d5 d6 : char) :
  Forall (fun x => is_digit E x = true) [d1; d2; d3; d4; d5; d6] ->
  Reader.strptime_dmY E [d1; d2; 45%N; d3; d4; d5; d6] = Raise ValueError.
Proof.
  intros Hdig.
  assert (forall x, x ∈ [d1; d2; d3; d4; d5; d6] -> x <> 45%N) as Hnd.
  { intros x Hx ->. rewrite Forall_forall in Hdig.
    specialize (Hdig _ Hx). rewrite is_digit_dash in Hdig. discriminate. }
  unfold Reader.strptime_dmY, fullmatch_first.
  destruct (match_at (Reader.dmY_pattern E) 0 _) as [m|] eqn:Hm; [|reflexivity].
  exfalso. unfold match_at in Hm. apply run_sound in Hm.
  destruct Hm as (s' & c' & Hm & _).
  apply dmY_needs_two_dashes in Hm.
  destruct Hm as (day & month & rest & Hs & Hld & Hlm).
  destruct day as [|a [|b [|]]]; simpl in Hld; try lia; simpl in Hs.
  - inversion Hs as [[Ea Eb Ec]]. apply (Hnd d2); [repeat constructor|exact Eb].
  - inversion Hs as [[Ea Eb Ec]]. clear Hs.
    destruct month as [|x [|y [|]]]; simpl in Hlm; try lia; simpl in Ec.
    + inversion Ec as [[Ex Ey]]. apply (Hnd d4); [repeat constructor|exact Ey].
    + inversion Ec as [[Ex Ey Ez]]. apply (Hnd d5); [repeat constructor|exact Ez].
Qed.
End MetadataDate.

(** ** Reader: what [extract_metadata] and [read_documents] return *)

Section ReaderResults.
Import Regex RegexSpec.
Context (E : Env).

Lemma lstrip_by_id (f : char -> bool) (s : str) :
  (forall c r', s = c :: r' -> f c = false) -> lstrip_by f s = s.
Proof.
  destruct s as [|c s]; [reflexivity|]. intros H. simpl.
  now rewrite (H c s eq_refl).
Qed.

Lemma rstrip_by_id (f : char -> bool) (s : str) :
  (forall r' c, s = r' ++ [c] -> f c = false) -> rstrip_by f s = s.
Proof.
  intros H. unfold rstrip_by. rewrite lstrip_by_id; [apply rev_involutive|].
  intros c r' Hr. apply (H (rev r') c).
  rewrite <- (rev_involutive s), Hr. reflexivity.
Qed.

Lemma strip_nonspace (s : str) :
  Forall (fun x => is_space E x = false) s -> strip E s = s.
Proof.
  intros H. rewrite Forall_forall in H. unfold strip.
  rewrite lstrip_by_id.
  - apply rstrip_by_id. intros r' c ->. apply H. set_solver.
  - intros c r' ->. apply H. set_solver.
Qed.

Lemma strip_idempotent (s : str) : strip E (strip E s) = strip E s.
Proof.
  unfold strip at 1.
  destruct (lstrip_by_spec (is_space E) s) as (pre & _ & _ & Hhead).
  destruct (rstrip_by_spec (is_space E) (lstrip_by (is_space E) s))
    as (suf & _ & _ & Hlast).
  fold (strip E s) in Hlast.
  rewrite lstrip_by_id.
  - now apply rstrip_by_id.
  - intros c r' Hr. unfold strip in Hr.
    destruct (rstrip_by_head _ _ _ _ Hr) as [s' Hs']. exact (Hhead c s' Hs').
Qed.

Lemma digit_not_space (x : char) :
  (forall c, uni_digit E c = true -> uni_space E c = false) ->
  is_digit E x = true -> is_space E x = false.
Proof.
  intros Hds. unfold is_digit, is_space.
  destruct (is_ascii x).
  - unfold in_range. intros H. apply andb_true_iff in H. destruct H as [H1 H2].
    apply N.leb_le in H1.
    destruct (N.leb_spec x 13), (N.leb_spec x 32); try lia;
      rewrite ?andb_false_r; reflexivity.
  - destruct (is_cyrillic x); [discriminate|apply Hds].
Qed.

Lemma startswith_app (p s : str) : startswith (p ++ s) p = true.
Proof.
  induction p as [|c p IH]; simpl; [now destruct s|].
  unfold char_eqb. now rewrite N.eqb_refl.
Qed.

Lemma search_from_sound (r : re) (s : str) :
  forall pos m,
    search_from r pos s = Some m ->
    exists s0 s', matches r s0 [] s' (m_caps m).
Proof.
  induction s as [|x s IH]; intros pos m H; simpl in H.
  - destruct (match_at r pos []) as [m'|] eqn:Hm; [|discriminate].
    injection H as ->. unfold match_at in Hm. apply run_sound in Hm.
    destruct Hm as (s' & c' & Hm & [= <-]). eauto.
  - destruct (match_at r pos (x :: s)) as [m'|] eqn:Hm.
    + injection H as ->. unfold match_at in Hm. apply run_sound in Hm.
      destruct Hm as (s' & c' & Hm & [= <-]). eauto.
    + eapply IH. exact H.
Qed.
End ReaderResults.

(** X12. [extract_metadata] never raises and never reads a date.  Either
    it finds no block and returns the text as it is with no metadata, or it
    returns a text without blanks at its ends, a link that starts with
    ["http"] and holds no blank, and a null date: the pattern captures two
    digits, a dash and four digits, which the date format, with its two
    dashes, never accepts.  (Of the Unicode tables, it is assumed that no
    digit is a blank.) *)
Theorem extract_metadata_never_reads_a_date (E : Env) (text : str) :
  (forall c, uni_digit E c = true -> uni_space E c = false) ->
  exists clean meta,
    Reader.extract_metadata E text = Ok (clean, meta)
    /\ ((clean = text /\ meta = ∅)
        \/ (exists link,
              meta = <["link" := VStr link]> (<["date" := VNone]> ∅)
              /\ startswith link (lit "http") = true
              /\ Forall (fun x => is_space E x = false) link
              /\ strip E clean = clean)).
Proof.
  intros Hds. unfold Reader.extract_metadata. cbv zeta.
  destruct (Regex.search (Reader.metadata_pattern E) text) as [m|] eqn:Hm.
  - unfold Regex.search in Hm. apply search_from_sound in Hm.
    destruct Hm as (s0 & s' & Hm).
    apply metadata_pattern_captures in Hm.
    destruct Hm as (opt & ns & d1 & d2 & d3 & d4 & d5 & d6
                    & Hc & Hopt & Hne & Hns & Hdig).
    assert (Regex.group m 2 = [d1; d2; 45%N; d3; d4; d5; d6]) as Hg2
      by (unfold Regex.group; rewrite Hc; reflexivity).
    assert (Regex.group m 1 = lit "http" ++ opt ++ lit "://" ++ ns) as Hg1
      by (unfold Regex.group; rewrite Hc; reflexivity).
    assert (Forall (fun x => is_space E x = false)
              [d1; d2; 45%N; d3; d4; d5; d6]) as Hnsd.
    { inversion Hdig as [|? ? H1 Hdig1]; subst.
      inversion Hdig1 as [|? ? H2 Hdig2]; subst.
      inversion Hdig2 as [|? ? H3 Hdig3]; subst.
      inversion Hdig3 as [|? ? H4 Hdig4]; subst.
      inversion Hdig4 as [|? ? H5 Hdig5]; subst.
      inversion Hdig5 as [|? ? H6 _]; subst.
      repeat constructor; try (apply digit_not_space; assumption). }
    assert (Forall (fun x => is_space E x = false)
              (lit "http" ++ opt ++ lit "://" ++ ns)) as Hnsl.
    { apply Forall_app. split; [repeat constructor|].
      apply Forall_app. split.
      - destruct Hopt as [->| ->]; repeat constructor.
      - apply Forall_app. split; [repeat constructor|exact Hns]. }
    rewrite Hg2, (strip_nonspace E _ Hnsd).
    pose proof (strptime_two_part_fails E _ _ _ _ _ _ Hdig) as Hsp.
    match goal with
    | |- context [Reader.strptime_dmY E ?l] =>
        replace (Reader.strptime_dmY E l) with (@Raise value ValueError)
          by (symmetry; exact Hsp)
    end.
    cbn [rbind].
    rewrite Hg1, (strip_nonspace E _ Hnsl).
    eexists. eexists. split; [reflexivity|]. right.
    eexists. split; [reflexivity|]. split; [apply startswith_app|].
    split; [exact Hnsl|apply strip_idempotent].
  - eexists. eexists. split; [reflexivity|]. now left.
Qed.

Lemma extract_metadata_never_reads_a_date_witness :
  exists clean meta,
    Reader.extract_metadata demo_env
      (with_metadata_block "Body text" "https://x.test/a" "03-2024")
    = Ok (clean, meta)
    /\ ((clean = with_metadata_block "Body text" "https://x.test/a" "03-2024"
         /\ meta = ∅)
        \/ (exists link,
              meta = <["link" := VStr link]> (<["date" := VNone]> ∅)
              /\ startswith link (lit "http") = true
              /\ Forall (fun x => is_space demo_env x = false) link
              /\ strip demo_env clean = clean)).
Proof.
  apply (extract_metadata_never_reads_a_date demo_env).
  intros c H. discriminate.
Defined.

(** X13. [read_documents] reads the files whose name ends in [.md] and no
    others: the files with another name do not change its result, readable
    or not; when it returns, it returns one document per [.md] file, in the
    order of the files, each made of what [extract_metadata] gives for the
    content of its file; and it raises as soon as one [.md] file cannot be
    read. *)
Theorem read_documents_reads_md_files_only
  (E : Env) (files : list (str * result str)) :
  let md := List.filter (fun f => Reader.endswith (fst f) (lit ".md")) files in
  Reader.read_documents E files = Reader.read_documents E md
  /\ (forall docs,
        Reader.read_documents E files = Ok docs ->
        Forall2 (fun f d =>
                   exists content,
                     snd f = Ok content
                     /\ Reader.extract_metadata E content
                        = Ok (page_content d, metadata d)) md docs)
  /\ (forall name e,
        (name, Raise e) ∈ md ->
        exists e', Reader.read_documents E files = Raise e').
Proof.
  intros md. subst md. split; [|split].
  - induction files as [|[name content] files IH]; [reflexivity|].
    simpl. destruct (Reader.endswith name (lit ".md")) eqn:Hmd.
    + simpl. rewrite Hmd. destruct content as [content|e]; [|reflexivity].
      cbn [rbind]. destruct (Reader.extract_metadata E content); [|reflexivity].
      cbn [rbind]. now rewrite IH.
    + exact IH.
  - induction files as [|[name content] files IH]; intros docs H.
    + injection H as <-. constructor.
    + simpl in H. simpl. destruct (Reader.endswith name (lit ".md")).
      * destruct content as [content|e]; [|discriminate]. cbn [rbind] in H.
        destruct (Reader.extract_metadata E content) as [[t m]|e] eqn:Hx;
          [|discriminate].
        cbn [rbind] in H.
        destruct (Reader.read_documents E files) as [rest|e]; [|discriminate].
        injection H as <-. constructor; [|now apply IH].
        exists content. split; [reflexivity|exact Hx].
      * now apply IH.
  - induction files as [|[name content] files IH]; intros n e Hin.
    + inversion Hin.
    + simpl in Hin. simpl. destruct (Reader.endswith name (lit ".md")).
      * apply elem_of_cons in Hin. destruct Hin as [[= <- <-]|Hin].
        -- eexists. reflexivity.
        -- destruct content as [content|e0]; [|eexists; reflexivity].
           cbn [rbind].
           destruct (Reader.extract_metadata E content); [|eexists; reflexivity].
           cbn [rbind]. destruct (IH n e Hin) as [e' ->]. eexists. reflexivity.
      * now apply (IH n e).
Qed.

(** ** MetricEvaluator: the score does not depend on the order of the texts *)

Section Symmetry.
Import MetricEvaluator.

Lemma str_compare_refl (a : str) : str_compare a a = Eq.
Proof. induction a as [|x a IH]; simpl; [reflexivity|]. now rewrite N.compare_refl. Qed.

Lemma str_compare_eq (a b : str) : str_compare a b = Eq -> a = b.
Proof.
  revert b. induction a as [|x a IH]; intros [|y b]; simpl; try discriminate;
    [reflexivity|].
  destruct (N.compare_spec x y) as [->| |]; try discriminate.
  intros H. f_equal. now apply IH.
Qed.

Lemma str_compare_antisym (a b : str) :
  str_compare b a = CompOpp (str_compare a b).
Proof.
  revert b. induction a as [|x a IH]; intros [|y b]; simpl; try reflexivity.
  rewrite (N.compare_antisym x y).
  destruct (N.compare x y); simpl; [apply IH|reflexivity|reflexivity].
Qed.

Lemma str_compare_trans (a b c : str) :
  str_compare a b = Lt -> str_compare b c = Lt -> str_compare a c = Lt.
Proof.
  revert b c. induction a as [|x a IH]; intros [|y b] [|z c]; simpl;
    try discriminate; try reflexivity.
  destruct (N.compare_spec x y) as [->|Hxy|Hxy]; try discriminate.
  - destruct (N.compare_spec y z) as [->|Hyz|Hyz]; try discriminate.
    + apply IH.
    + reflexivity.
  - intros _. destruct (N.compare_spec y z) as [->|Hyz|Hyz]; try discriminate.
    + intros _. destruct (N.compare_spec x z); try lia; reflexivity.
    + intros _. destruct (N.compare_spec x z); try lia; reflexivity.
Qed.

Lemma vocab_insert_elem_of (x t : str) (v : list str) :
  x ∈ vocab_insert t v <-> x = t \/ x ∈ v.
Proof.
  split; [apply vocab_insert_elem|].
  induction v as [|u v IH]; simpl.
  - intros [->|H]; [apply list_elem_of_singleton; reflexivity|inversion H].
  - destruct (str_compare t u) eqn:Hc.
    + apply str_compare_eq in Hc. subst u. intros [->|H]; [|exact H].
      apply elem_of_cons. now left.
    + intros [->|H]; apply elem_of_cons; [now left|now right].
    + intros [->|H].
      * apply elem_of_cons. right. apply IH. now left.
      * apply elem_of_cons in H. destruct H as [->|H]; apply elem_of_cons;
          [now left|]. right. apply IH. now right.
Qed.

Lemma vocabulary_elem_of (x : str) (toks : list str) :
  x ∈ vocabulary toks <-> x ∈ toks.
Proof.
  induction toks as [|t toks IH]; simpl; [reflexivity|].
  rewrite vocab_insert_elem_of, IH, elem_of_cons. reflexivity.
Qed.

Lemma vocab_insert_sorted (t : str) (v : list str) :
  StronglySorted lt_str v -> StronglySorted lt_str (vocab_insert t v).
Proof.
  induction 1 as [|u v Hs IH Hu]; simpl.
  - repeat constructor.
  - destruct (str_compare t u) eqn:Hc.
    + now constructor.
    + constructor; [now constructor|]. constructor; [exact Hc|].
      eapply Forall_impl; [exact Hu|]. intros w Hw.
      eapply str_compare_trans; eassumption.
    + constructor; [exact IH|]. apply Forall_forall. intros w Hw.
      apply vocab_insert_elem_of in Hw. destruct Hw as [->|Hw].
      * unfold lt_str. rewrite str_compare_antisym, Hc. reflexivity.
      * rewrite Forall_forall in Hu. now apply Hu.
Qed.

Lemma vocabulary_sorted (toks : list str) : StronglySorted lt_str (vocabulary toks).
Proof.
  induction toks as [|t toks IH]; simpl; [constructor|].
  now apply vocab_insert_sorted.
Qed.

Lemma sorted_same_elements (l1 l2 : list str) :
  StronglySorted lt_str l1 -> StronglySorted lt_str l2 ->
  (forall x, x ∈ l1 <-> x ∈ l2) -> l1 = l2.
Proof.
  intros H1. revert l2. induction H1 as [|x1 l1 Hs1 IH Hx1]; intros l2 H2 Hel.
  - destruct l2 as [|x2 l2]; [reflexivity|].
    exfalso. assert (x2 ∈ []) as H by (apply Hel; apply elem_of_cons; now left).
    inversion H.
  - destruct H2 as [|x2 l2 Hs2 Hx2].
    + exfalso. assert (x1 ∈ []) as H by (apply Hel; apply elem_of_cons; now left).
      inversion H.
    + rewrite Forall_forall in Hx1, Hx2.
      assert (forall a b, lt_str a b -> lt_str b a -> False) as Hasym.
      { unfold lt_str. intros a b Hab Hba.
        rewrite str_compare_antisym, Hab in Hba. discriminate. }
      assert (forall a, lt_str a a -> False) as Hirr.
      { unfold lt_str. intros a Ha. rewrite str_compare_refl in Ha. discriminate. }
      assert (x1 = x2) as <-.
      { assert (x1 ∈ x2 :: l2) as Ha by (apply Hel; apply elem_of_cons; now left).
        assert (x2 ∈ x1 :: l1) as Hb by (apply Hel; apply elem_of_cons; now left).
        apply elem_of_cons in Ha. apply elem_of_cons in Hb.
        destruct Ha as [Ha|Ha]; [exact Ha|].
        destruct Hb as [Hb|Hb]; [now symmetry|].
        exfalso. apply (Hasym x1 x2); [now apply Hx1|now apply Hx2]. }
      f_equal. apply IH; [exact Hs2|].
      intros x. split; intros Hx.
      * assert (x ∈ x1 :: l2) as Ha by (apply Hel; apply elem_of_cons; now right).
        apply elem_of_cons in Ha. destruct Ha as [->|Ha]; [|exact Ha].
        exfalso. apply (Hirr x1). now apply Hx1.
      * assert (x ∈ x1 :: l1) as Ha by (apply Hel; apply elem_of_cons; now right).
        apply elem_of_cons in Ha. destruct Ha as [->|Ha]; [|exact Ha].
        exfalso. apply (Hirr x1). now apply Hx2.
Qed.

(** The vocabulary fitted on two texts does not depend on their order. *)
Lemma vocabulary_app_comm (d1 d2 : list str) :
  vocabulary (d1 ++ d2) = vocabulary (d2 ++ d1).
Proof.
  apply sorted_same_elements; try apply vocabulary_sorted.
  intros x. rewrite !vocabulary_elem_of, !elem_of_app. tauto.
Qed.

Lemma cosine_sim_comm (x y : vec) : cosine_sim x y = cosine_sim y x.
Proof.
  unfold cosine_sim. rewrite (Nat.eqb_sym (length y) (length x)).
  destruct (Nat.eqb_spec (length x) (length y)) as [Hl|]; [|reflexivity].
  simpl. rewrite Hl. destruct (Nat.eqb (length y) 0); [reflexivity|].
  now rewrite dot_comm.
Qed.
End Symmetry.

(** X15. The score is symmetric: the lexical score of two texts is the
    same in either order, errors included, and when [evaluate] returns a
    score for a pair it returns the same score for the pair turned
    round. *)
Theorem evaluate_is_symmetric (E : Env) (a b : str) (x : R) :
  MetricEvaluator.lexical_cosine_similarity E a b
    = MetricEvaluator.lexical_cosine_similarity E b a
  /\ (MetricEvaluator.evaluate E a b = Ok x -> MetricEvaluator.evaluate E b a = Ok x).
Proof.
  assert (MetricEvaluator.lexical_cosine_similarity E a b
          = MetricEvaluator.lexical_cosine_similarity E b a) as Hlex.
  { unfold MetricEvaluator.lexical_cosine_similarity.
    rewrite (vocabulary_app_comm (MetricEvaluator.tokens E a)).
    destruct (MetricEvaluator.vocabulary _); [reflexivity|].
    apply cosine_sim_comm. }
  split; [exact Hlex|].
  unfold MetricEvaluator.evaluate. rewrite Hlex.
  destruct (MetricEvaluator.lexical_cosine_similarity E b a); [|discriminate].
  cbn [rbind].
  unfold MetricEvaluator.semantic_cosine_similarity, MetricEvaluator.get_embeddings.
  destruct (embed_query E a) as [ea|]; [|discriminate].
  destruct (embed_query E b) as [eb|]; [|discriminate].
  cbn [rbind]. now rewrite (cosine_sim_comm eb ea).
Qed.

Lemma evaluate_is_symmetric_witness :
  MetricEvaluator.evaluate demo_env (lit "cd") (lit "ab") = Ok 0.5%R.
Proof.
  apply (proj2 (evaluate_is_symmetric demo_env (lit "ab") (lit "cd") 0.5)).
  apply evaluate_demo_disjoint.
Defined.

(** ** The loops of [QAService] *)

Section Loops.
Import QAService.
Context (E : Env).

Lemma accumulate_from (acc : str) (chunks : list (option str)) :
  fold_left (fun result content => result ++ default [] content) chunks acc
  = acc ++ concat (map (default []) chunks).
Proof.
  revert acc. induction chunks as [|c chunks IH]; intros acc; simpl.
  - now rewrite app_nil_r.
  - now rewrite IH, app_assoc.
Qed.

Lemma filter_loop_raises (t : R) (q : str) (d : Document) (e : exn)
      (docs : list Document) :
  d ∈ docs ->
  MetricEvaluator.evaluate E q (page_content d) = Raise e ->
  forall kept, exists e', filter_loop E t q kept docs = Raise e'.
Proof.
  intros Hin He. induction docs as [|d' docs IH]; intros kept.
  - inversion Hin.
  - simpl. apply elem_of_cons in Hin. destruct Hin as [<-|Hin].
    + rewrite He. eexists. reflexivity.
    + destruct (MetricEvaluator.evaluate E q (page_content d')) as [score|e0].
      * cbn [rbind]. apply IH. exact Hin.
      * eexists. reflexivity.
Qed.

End Loops.

(** X17. The result of the generation path does not depend on how the
    stream is cut into chunks: the loop over the stream gives the contents
    of the chunks joined in their order, a chunk without content adding
    nothing, so two streams with the same joined content accumulate to the
    same text. *)
Theorem accumulate_joins_the_chunks (chunks more : list (option str)) :
  QAService.accumulate chunks = concat (map (default []) chunks)
  /\ QAService.accumulate (chunks ++ more)
     = QAService.accumulate chunks ++ QAService.accumulate more
  /\ QAService.accumulate (None :: chunks) = QAService.accumulate chunks
  /\ QAService.accumulate (Some [] :: chunks) = QAService.accumulate chunks.
Proof.
  unfold QAService.accumulate. rewrite !accumulate_from. simpl.
  repeat split. now rewrite map_app, concat_app.
Qed.

(** X18. One candidate that cannot be scored fails the whole filter: when
    [evaluate] raises for a document of the list, [filter_based_on_metric]
    raises and returns none of the documents that passed, and so does
    [get_cached_answer] when the cache returns such a candidate. *)
Theorem filter_raises_when_a_score_raises
  (E : Env) (s : QAService.t) (q : str) (k : option Z)
  (docs : list Document) (c : Retriever.t) (d : Document) (e : exn) :
  d ∈ docs ->
  MetricEvaluator.evaluate E q (page_content d) = Raise e ->
  (exists e', QAService.filter_based_on_metric E s q docs = Raise e')
  /\ (Retriever.get E q k (QAService.cache s) = (Ok docs, c) ->
      exists e', fst (QAService.get_cached_answer E q k s) = Raise e').
Proof.
  intros Hin He.
  destruct (filter_loop_raises E (QAService.threshold s) q d e docs Hin He [])
    as [e' Hf].
  split; [exists e'; exact Hf|].
  intros Hg. rewrite (get_cached_answer_run E s q k docs c Hg).
  destruct docs as [|d0 docs]; [inversion Hin|].
  unfold QAService.filter_based_on_metric. rewrite Hf. eauto.
Qed.

Lemma filter_raises_when_a_score_raises_witness :
  exists e',
    QAService.filter_based_on_metric demo_env (demo_service [] 0.5) (lit "")
      [demo_first; QAService.cache_document (lit "a") (lit "second")]
    = Raise e'.
Proof.
  apply (filter_raises_when_a_score_raises demo_env (demo_service [] 0.5) (lit "")
           None _ (Retriever.init None 5)
           (QAService.cache_document (lit "a") (lit "second")) ValueError).
  - apply elem_of_cons. right. apply elem_of_cons. now left.
  - reflexivity.
Defined.

(** ** The tokens of the lexical score *)

Section WordRuns.
Context (E : Env).

Lemma split_at_nonword (l1 l2 pre w suf : str) (c : char) :
  Forall (fun c => is_word E c = true) w ->
  is_word E c = false ->
  l1 ++ c :: l2 = pre ++ w ++ suf ->
  (exists suf', suf = suf' ++ c :: l2 /\ l1 = pre ++ w ++ suf')
  \/ (exists pre', pre = l1 ++ c :: pre' /\ l2 = pre' ++ w ++ suf).
Proof.
  intros Hw Hc H. apply app_eq_app in H.
  destruct H as [l [[H1 H2]|[H1 H2]]].
  - apply app_eq_app in H2.
    destruct H2 as [m [[H3 H4]|[H3 H4]]].
    + destruct m as [|c' m].
      * left. exists []. rewrite app_nil_r in H3. subst l1 w.
        simpl in H4. rewrite app_nil_r. split; [now symmetry|reflexivity].
      * exfalso. injection H4 as <- _. subst w.
        apply Forall_app in Hw. destruct Hw as [_ Hw].
        inversion Hw; congruence.
    + left. exists m. subst. split; reflexivity.
  - destruct l as [|c' l].
    + rewrite app_nil_r in H1. simpl in H2. destruct w as [|c' w].
      * left. exists []. simpl in H2. subst pre suf. simpl.
        rewrite app_nil_r. split; reflexivity.
      * exfalso. injection H2 as -> _. inversion Hw; congruence.
    + right. injection H2 as <- ->. exists l. split; [exact H1|reflexivity].
Qed.

(** The runs that [word_runs] reads are the maximal runs of word
    characters of the text, the run being read included. *)
Lemma word_runs_maximal (s cur w : str) :
  Forall (fun c => is_word E c = true) cur ->
  w ∈ MetricEvaluator.word_runs E cur s <->
  Forall (fun c => is_word E c = true) w
  /\ exists pre suf,
       rev cur ++ s = pre ++ w ++ suf
       /\ (forall p c, pre = p ++ [c] -> is_word E c = false)
       /\ (forall c r, suf = c :: r -> is_word E c = false).
Proof.
  revert cur. induction s as [|c s IH]; intros cur Hcur.
  - assert (Forall (fun c => is_word E c = true) (rev cur)) as Hrev.
    { apply Forall_forall. intros x Hx. rewrite Forall_forall in Hcur.
      apply Hcur. apply list_elem_of_In. apply list_elem_of_In in Hx.
      now apply in_rev. }
    cbn [MetricEvaluator.word_runs]. rewrite app_nil_r. split.
    + intros Hw. apply list_elem_of_singleton in Hw. subst w.
      split; [exact Hrev|]. exists [], []. rewrite app_nil_r.
      split; [reflexivity|]. split.
      * intros p x Hp. now destruct p.
      * discriminate.
    + intros (Hw & pre & suf & Hs & Hpre & Hsuf).
      assert (pre = []) as ->.
      { destruct (rev pre) as [|x p'] eqn:Hp.
        - apply (f_equal (@rev char)) in Hp. now rewrite rev_involutive in Hp.
        - apply (f_equal (@rev char)) in Hp. rewrite rev_involutive in Hp.
          simpl in Hp. specialize (Hpre _ _ Hp).
          rewrite Hs, Hp in Hrev. apply Forall_app in Hrev.
          destruct Hrev as [Hrev _]. apply Forall_app in Hrev.
          destruct Hrev as [_ Hrev]. inversion Hrev; congruence. }
      assert (suf = []) as ->.
      { destruct suf as [|x r]; [reflexivity|].
        specialize (Hsuf _ _ eq_refl). rewrite Hs in Hrev.
        apply Forall_app in Hrev. destruct Hrev as [_ Hrev].
        apply Forall_app in Hrev. destruct Hrev as [_ Hrev].
        inversion Hrev; congruence. }
      simpl in Hs. rewrite app_nil_r in Hs. subst w.
      apply list_elem_of_singleton. reflexivity.
  - cbn [MetricEvaluator.word_runs]. destruct (is_word E c) eqn:Hc.
    + rewrite (IH (c :: cur)) by (now constructor).
      cbn [rev]. now rewrite <- app_assoc.
    + assert (Forall (fun c => is_word E c = true) (rev cur)) as Hrev.
      { apply Forall_forall. intros x Hx. rewrite Forall_forall in Hcur.
        apply Hcur. apply list_elem_of_In. apply list_elem_of_In in Hx.
        now apply in_rev. }
      rewrite elem_of_cons, (IH []) by constructor. cbn [rev app]. split.
      * intros [->|(Hw & pre & suf & Hs & Hpre & Hsuf)].
        -- split; [exact Hrev|]. exists [], (c :: s).
           split; [reflexivity|]. split.
           ++ intros p x Hp. now destruct p.
           ++ intros x r [= <- _]. exact Hc.
        -- split; [exact Hw|]. exists (rev cur ++ c :: pre), suf.
           split; [rewrite Hs, <- app_assoc; reflexivity|]. split; [|exact Hsuf].
           intros p x Hp.
           destruct (rev pre) as [|y p'] eqn:Hrp.
           ++ apply (f_equal (@rev char)) in Hrp. rewrite rev_involutive in Hrp.
              simpl in Hrp. subst pre.
              change (rev cur ++ [c]) with (rev cur ++ [c]) in Hp.
              apply app_inj_tail in Hp. destruct Hp as [_ <-]. exact Hc.
           ++ apply (f_equal (@rev char)) in Hrp. rewrite rev_involutive in Hrp.
              simpl in Hrp. subst pre.
              change (rev cur ++ c :: rev p' ++ [y])
                with (rev cur ++ (c :: rev p') ++ [y]) in Hp.
              rewrite app_assoc in Hp. apply app_inj_tail in Hp.
              destruct Hp as [_ <-]. now apply (Hpre (rev p') y).
      * intros (Hw & pre & suf & Hs & Hpre & Hsuf).
        apply (split_at_nonword (rev cur) s pre w suf c Hw Hc) in Hs.
        destruct Hs as [(suf' & -> & Hs)|(pre' & -> & Hs)].
        -- left.
           assert (pre = []) as ->.
           { destruct (rev pre) as [|x p'] eqn:Hp.
             - apply (f_equal (@rev char)) in Hp.
               now rewrite rev_involutive in Hp.
             - apply (f_equal (@rev char)) in Hp. rewrite rev_involutive in Hp.
               simpl in Hp. specialize (Hpre _ _ Hp).
               rewrite Hs, Hp in Hrev. apply Forall_app in Hrev.
               destruct Hrev as [Hrev _]. apply Forall_app in Hrev.
               destruct Hrev as [_ Hrev]. inversion Hrev; congruence. }
           assert (suf' = []) as ->.
           { destruct suf' as [|x r]; [reflexivity|].
             specialize (Hsuf x (r ++ c :: s) eq_refl). rewrite Hs in Hrev.
             apply Forall_app in Hrev. destruct Hrev as [_ Hrev].
             apply Forall_app in Hrev. destruct Hrev as [_ Hrev].
             inversion Hrev; congruence. }
           simpl in Hs. rewrite app_nil_r in Hs. now symmetry.
        -- right. split; [exact Hw|]. exists pre', suf.
           split; [exact Hs|]. split; [|exact Hsuf].
           intros p x ->. apply (Hpre (rev cur ++ c :: p) x).
           now rewrite <- app_assoc.
Qed.
End WordRuns.

(** X19. The tokens of a text, as the lexical score counts them, are the
    maximal runs of two or more word characters of the lower-cased text:
    a text is a token exactly when it is made of at least two word
    characters and stands in the lower-cased text with no word character
    before it and none after it.  So a one-letter word is not a token, a
    text made of such words, blanks and punctuation has none, and the
    tokens come in the order of the text. *)
Theorem tokens_are_the_runs_of_two_or_more (E : Env) (s w : str) :
  (w ∈ MetricEvaluator.tokens E s <->
   (2 <= length w)%nat
   /\ Forall (fun c => is_word E c = true) w
   /\ exists pre suf,
        lower E s = pre ++ w ++ suf
        /\ (forall p c, pre = p ++ [c] -> is_word E c = false)
        /\ (forall c r, suf = c :: r -> is_word E c = false))
  /\ MetricEvaluator.tokens E (lit "a b, c!") = []
  /\ MetricEvaluator.tokens E (lit "to be, or not 2b") =
       [lit "to"; lit "be"; lit "or"; lit "not"; lit "2b"].
Proof.
  split; [|split; reflexivity].
  unfold MetricEvaluator.tokens.
  rewrite list_elem_of_filter.
  rewrite (word_runs_maximal E (lower E s) [] w) by constructor.
  cbn [rev app]. tauto.
Qed.

Lemma tokens_are_the_runs_of_two_or_more_witness :
  lit "ab" ∈ MetricEvaluator.tokens demo_env (lit "a ab, c!").
Proof.
  apply (proj1 (tokens_are_the_runs_of_two_or_more demo_env (lit "a ab, c!")
                  (lit "ab"))).
  split; [simpl; lia|]. split; [repeat constructor|].
  exists (lit "a "), (lit ", c!"). split; [reflexivity|]. split.
  - intros p c Hp. change (lit "a ") with [97%N; 32%N] in Hp.
    destruct p as [|x [|y p]]; simpl in Hp.
    + discriminate.
    + injection Hp as _ <-. reflexivity.
    + injection Hp as _ _ Hp. destruct p; discriminate.
  - intros c r [= <- _]. reflexivity.
Defined.
